(** * coteacher-naep: the landing-page helpers and the map alignment code

    A shallow embedding of
    - [src/landing-helpers.ts]: [extractLocationLabel] (both variants kept in
      the source history) and [proficiencyToFraction];
    - the Playwright spec under [e2e/]: [getStateBBoxFromTopology] and
      [getExpectedAlignedCityPoint].

    Conventions of the embedding.
    - A JavaScript number is a [number]: an exact rational, [+Infinity],
      [-Infinity] or [NaN].  Arithmetic on finite values is exact (IEEE
      rounding and overflow are abstracted away) and there is one zero, which
      divides like [+0]; every divisor the code forms ([dx1 - dx0], the
      literal [2], a denominator) is a [+0] when it is zero.
    - A JavaScript string is the list of its UTF-16 code units.
    - [throw] is the left injection of a sum type. *)

From Stdlib Require Import Strings.String Strings.Ascii.
From Stdlib Require Import ZArith QArith Qround Qabs Qminmax List Bool Lia Lqa.
Import ListNotations.

Local Open Scope Z_scope.
Local Open Scope Q_scope.

(* ================================================================== *)
(** ** JavaScript numbers *)

Module Num.

Inductive number : Type :=
| Fin (q : Q)
| PInf
| NInf
| NaN.

Definition isFinite (a : number) : bool :=
  match a with Fin _ => true | _ => false end.

Definition Qltb (p q : Q) : bool :=
  match p ?= q with Lt => true | _ => false end.

Definition Qis0 (p : Q) : bool := Qeq_bool p 0.

Definition neg (a : number) : number :=
  match a with
  | Fin q => Fin (- q)
  | PInf => NInf
  | NInf => PInf
  | NaN => NaN
  end.

Definition add (a b : number) : number :=
  match a, b with
  | NaN, _ | _, NaN => NaN
  | Fin p, Fin q => Fin (p + q)
  | PInf, NInf | NInf, PInf => NaN
  | PInf, _ | _, PInf => PInf
  | NInf, _ | _, NInf => NInf
  end.

Definition sub (a b : number) : number :=
  match a, b with
  | Fin p, Fin q => Fin (p - q)
  | _, _ => add a (neg b)
  end.

(** The sign of [inf * q]: [NaN] at zero. *)
Definition scale_inf (positive : bool) (q : Q) : number :=
  if Qis0 q then NaN
  else if Bool.eqb positive (Qltb 0 q) then PInf else NInf.

Definition mul (a b : number) : number :=
  match a, b with
  | NaN, _ | _, NaN => NaN
  | Fin p, Fin q => Fin (p * q)
  | PInf, Fin q | Fin q, PInf => scale_inf true q
  | NInf, Fin q | Fin q, NInf => scale_inf false q
  | PInf, PInf | NInf, NInf => PInf
  | PInf, NInf | NInf, PInf => NInf
  end.

Definition div (a b : number) : number :=
  match a, b with
  | NaN, _ | _, NaN => NaN
  | Fin p, Fin q =>
      if Qis0 q then
        (if Qis0 p then NaN else if Qltb 0 p then PInf else NInf)
      else Fin (p / q)
  | Fin _, (PInf | NInf) => Fin 0
  | PInf, Fin q => if Qltb q 0 then NInf else PInf
  | NInf, Fin q => if Qltb q 0 then PInf else NInf
  | (PInf | NInf), (PInf | NInf) => NaN
  end.

(** [a < b]; false as soon as one side is [NaN]. *)
Definition lt (a b : number) : bool :=
  match a, b with
  | NaN, _ | _, NaN => false
  | Fin p, Fin q => Qltb p q
  | NInf, (Fin _ | PInf) => true
  | Fin _, PInf => true
  | _, _ => false
  end.

Definition gt (a b : number) : bool := lt b a.

(** [a === b] on numbers. *)
Definition eqb (a b : number) : bool :=
  match a, b with
  | Fin p, Fin q => Qeq_bool p q
  | PInf, PInf | NInf, NInf => true
  | _, _ => false
  end.

(** [Math.min(a, b)]. *)
Definition min (a b : number) : number :=
  match a, b with
  | NaN, _ | _, NaN => NaN
  | Fin p, Fin q => Fin (Qmin p q)
  | NInf, _ | _, NInf => NInf
  | PInf, c | c, PInf => c
  end.

(** [Math.round]: the nearest integer, halves going up. *)
Definition Math_round (q : Q) : Z := Qfloor (q + (1 # 2)).

(** Equality of numbers up to the value of the rational. *)
Definition same (a b : number) : Prop :=
  match a, b with
  | Fin p, Fin q => p == q
  | PInf, PInf | NInf, NInf | NaN, NaN => True
  | _, _ => False
  end.

End Num.

Import Num.

(* ================================================================== *)
(** ** proficiencyToFraction *)

Module Fractionizer.

Record Fraction : Type := { numerator : Z; denominator : Z }.

(** The three [let] variables of the loop. *)
Record Best : Type := { bestNum : Z; bestDen : Z; bestError : number }.

Definition denominators : list Z := [4; 5; 10]%Z.

(** [Math.abs(num / den - belowProficient)] for [num = Math.round(...)]. *)
Definition numOf (belowProficient : Q) (den : Z) : Z :=
  Math_round (belowProficient * inject_Z den).

Definition errorOf (belowProficient : Q) (den : Z) : Q :=
  Qabs (inject_Z (numOf belowProficient den) / inject_Z den - belowProficient).

(** One iteration of [for (const den of denominators)]. *)
Definition step (belowProficient : Q) (st : Best) (den : Z) : Best :=
  let num := numOf belowProficient den in
  let error := errorOf belowProficient den in
  if lt (Fin error) (bestError st)
     || (eqb (Fin error) (bestError st) && (bestDen st <? den)%Z)
  then {| bestNum := num; bestDen := den; bestError := Fin error |}
  else st.

Definition search (belowProficient : Q) : Best :=
  fold_left (step belowProficient) denominators
            {| bestNum := 0; bestDen := 10; bestError := PInf |}.

(** The two clamping statements, in order. *)
Definition clamp (num den : Z) : Z :=
  let num := if (num <=? 0)%Z then 1%Z else num in
  if (num >=? den)%Z then (den - 1)%Z else num.

Definition proficiencyToFraction (proficiency : Q) : Fraction :=
  let belowProficient := 1 - proficiency in
  let st := search belowProficient in
  {| numerator := clamp (bestNum st) (bestDen st);
     denominator := bestDen st |}.

(** The value the returned fraction displays. *)
Definition value (f : Fraction) : Q :=
  inject_Z (numerator f) / inject_Z (denominator f).

End Fractionizer.

(* ================================================================== *)
(** ** JavaScript strings, [trim] and the administrative-unit pattern *)

Module Str.

(** A string is the list of its UTF-16 code units. *)
Definition jsstring : Type := list N.

(** The code units of an ASCII literal. *)
Definition js (s : string) : jsstring :=
  map N_of_ascii (list_ascii_of_string s).

Definition truthy (s : jsstring) : bool :=
  match s with [] => false | _ :: _ => true end.

Definition eqb (s t : jsstring) : bool :=
  if list_eq_dec N.eq_dec s t then true else false.

(** [WhiteSpace] and [LineTerminator] of ECMAScript: what [trim] strips. *)
Definition isWhiteSpace (c : N) : bool :=
  existsb (N.eqb c)
    [9; 10; 11; 12; 13; 32; 160; 5760; 8232; 8233; 8239; 8287; 12288; 65279]%N
  || ((8192 <=? c)%N && (c <=? 8202)%N).

Fixpoint trimStart (s : jsstring) : jsstring :=
  match s with
  | [] => []
  | c :: rest => if isWhiteSpace c then trimStart rest else s
  end.

Definition trimEnd (s : jsstring) : jsstring := rev (trimStart (rev s)).

Definition trim (s : jsstring) : jsstring := trimEnd (trimStart s).

(** [\w] of a regular expression without the [u] flag. *)
Definition isWordChar (c : N) : bool :=
  ((48 <=? c)%N && (c <=? 57)%N) || ((65 <=? c)%N && (c <=? 90)%N)
  || ((97 <=? c)%N && (c <=? 122)%N) || (c =? 95)%N.

(** Case folding of the [i] flag (without [u]): a code unit from 128 on never
    folds onto an ASCII one, so only the ASCII letters matter against an ASCII
    pattern. *)
Definition canonicalize (c : N) : N :=
  if ((97 <=? c)%N && (c <=? 122)%N) then (c - 32)%N else c.

(** Matches the literal [w] at the head of [s], ignoring case; the rest of
    [s] on success. *)
Fixpoint matchLiteral (w s : jsstring) : option jsstring :=
  match w, s with
  | [], _ => Some s
  | _ :: _, [] => None
  | a :: w', c :: s' =>
      if (canonicalize a =? canonicalize c)%N then matchLiteral w' s' else None
  end.

(** [\b] right after a matched word, whose last code unit is a letter. *)
Definition wordBoundary (rest : jsstring) : bool :=
  match rest with
  | [] => true
  | c :: _ => negb (isWordChar c)
  end.

Definition adminWords : list jsstring :=
  map js ["township"; "county"; "borough"; "parish"; "district"; "division";
          "precinct"; "unincorporated"]%string.

(** [ADMIN_PATTERN.test(s)] for
    [/^(township|county|borough|parish|district|division|precinct|unincorporated)\b/i]. *)
Definition ADMIN_PATTERN_test (s : jsstring) : bool :=
  existsb (fun w => match matchLiteral w s with
                    | Some rest => wordBoundary rest
                    | None => false
                    end) adminWords.

(** [Array.prototype.sort(cmp)]: a stable sort; [cmp a b <= 0] keeps [a]
    before [b]. *)
Section Sort.

Context {A : Type} (cmp : A -> A -> Q).

Fixpoint insert (a : A) (l : list A) : list A :=
  match l with
  | [] => [a]
  | b :: rest => if Qle_bool (cmp a b) 0 then a :: l else b :: insert a rest
  end.

Definition sort (l : list A) : list A := fold_right insert [] l.

End Sort.

End Str.

Import Str.

(* ================================================================== *)
(** ** BigDataCloudResponse *)

Module Geo.

(** An entry of [localityInfo.administrative] or [localityInfo.informative];
    [order] and [adminLevel] are [None] when absent or [null]. *)
Record Entry : Type := {
  name : jsstring;
  order : option Q;
  adminLevel : option Q;
  description : option jsstring
}.

Record LocalityInfo : Type := {
  administrative : option (list Entry);
  informative : option (list Entry)
}.

Record BigDataCloudResponse : Type := {
  city : option jsstring;
  locality : option jsstring;
  principalSubdivision : option jsstring;
  principalSubdivisionCode : option jsstring;
  localityInfo : option LocalityInfo
}.

(** [geo.f && ...]: the field is there and is not the empty string. *)
Definition present (f : option jsstring) : bool :=
  match f with Some s => truthy s | None => false end.

(** [geo.f.trim()], read where the field is known to be there. *)
Definition trimmed (f : option jsstring) : jsstring :=
  match f with Some s => trim s | None => [] end.

(** [v ?? 0]. *)
Definition orZero (v : option Q) : Q :=
  match v with Some q => q | None => 0 end.

(** [v != null && v >= k]. *)
Definition atLeast (v : option Q) (k : Q) : bool :=
  match v with Some q => Qle_bool k q | None => false end.

Definition informativeOf (geo : BigDataCloudResponse) : option (list Entry) :=
  match localityInfo geo with Some li => informative li | None => None end.

Definition administrativeOf (geo : BigDataCloudResponse) : option (list Entry) :=
  match localityInfo geo with Some li => administrative li | None => None end.

End Geo.

Import Geo.

(* ================================================================== *)
(** ** extractLocationLabel, informative first (the variant "per Codex review") *)

Module InformativeFirst.

(** The filter of step 1. *)
Definition qualifies (e : Entry) : bool :=
  atLeast (order e) 4 && truthy (name e)
  && negb (ADMIN_PATTERN_test (trim (name e))).

Definition byOrderDesc (a b : Entry) : Q := orZero (order b) - orZero (order a).

Definition candidates (l : list Entry) : list Entry :=
  sort byOrderDesc (filter qualifies l).

(** Steps 2 to 4 and the final [return ""]. *)
Definition fallback (geo : BigDataCloudResponse) : jsstring :=
  if present (city geo) && truthy (trimmed (city geo)) then
    trimmed (city geo)
  else if present (locality geo) && truthy (trimmed (locality geo))
          && negb (ADMIN_PATTERN_test (trimmed (locality geo))) then
    trimmed (locality geo)
  else if present (principalSubdivision geo)
          && truthy (trimmed (principalSubdivision geo)) then
    trimmed (principalSubdivision geo)
  else [].

Definition extractLocationLabel (geo : BigDataCloudResponse) : jsstring :=
  match informativeOf geo with
  | Some l =>
      match candidates l with
      | c :: _ => name c
      | [] => fallback geo
      end
  | None => fallback geo
  end.

End InformativeFirst.

(* ================================================================== *)
(** ** extractLocationLabel, locality first (the variant that does not read
       [localityInfo.informative]) *)

Module LocalityFirst.

Definition qualifies (e : Entry) : bool :=
  atLeast (adminLevel e) 8 && truthy (name e)
  && negb (ADMIN_PATTERN_test (trim (name e))).

Definition byLevelDesc (a b : Entry) : Q :=
  orZero (adminLevel b) - orZero (adminLevel a).

Definition candidates (l : list Entry) : list Entry :=
  sort byLevelDesc (filter qualifies l).

Definition lastResort (geo : BigDataCloudResponse) : jsstring :=
  if truthy (trimmed (principalSubdivision geo)) then
    trimmed (principalSubdivision geo)
  else [].

Definition fromAdministrative (geo : BigDataCloudResponse) : jsstring :=
  match administrativeOf geo with
  | Some l =>
      match candidates l with
      | c :: _ => name c
      | [] => lastResort geo
      end
  | None => lastResort geo
  end.

Definition extractLocationLabel (geo : BigDataCloudResponse) : jsstring :=
  if truthy (trimmed (locality geo))
     && negb (ADMIN_PATTERN_test (trimmed (locality geo))) then
    trimmed (locality geo)
  else if truthy (trimmed (city geo))
          && negb (ADMIN_PATTERN_test (trimmed (city geo))) then
    trimmed (city geo)
  else fromAdministrative geo.

End LocalityFirst.

(* ================================================================== *)
(** ** Exceptions *)

Module Exn.

(** The [throw] sites of the two functions, and the [TypeError] of reading
    [.length] or [.slice] of an arc that is not in [decoded]. *)
Inductive error : Type :=
| MissingGeometry
| MissingCity
| NoPoints
| TypeError.

Definition result (A : Type) : Type := (error + A)%type.

Definition ret {A : Type} (a : A) : result A := inr a.
Definition throw {A : Type} (e : error) : result A := inl e.

Definition bind {A B : Type} (m : result A) (k : A -> result B) : result B :=
  match m with
  | inl e => inl e
  | inr a => k a
  end.

Definition failed {A : Type} (m : result A) : bool :=
  match m with inl _ => true | inr _ => false end.

(** [l.map(f)] for an [f] that may throw: the first exception wins. *)
Fixpoint mapM {A B : Type} (f : A -> result B) (l : list A) : result (list B) :=
  match l with
  | [] => ret []
  | a :: rest =>
      bind (f a) (fun b => bind (mapM f rest) (fun bs => ret (b :: bs)))
  end.

End Exn.

Import Exn.

Declare Scope exn_scope.
Delimit Scope exn_scope with exn.
Notation "x <- m ;; k" := (bind m (fun x => k))
  (at level 61, m at next level, right associativity) : exn_scope.

(* ================================================================== *)
(** ** getStateBBoxFromTopology *)

Module Topo.

Local Open Scope exn_scope.

Record Transform : Type := { scale : Q * Q; translate : Q * Q }.

(** A delta-encoded arc, and a decoded one. *)
Definition Arc : Type := list (Q * Q).
Definition Coords : Type := list (Q * Q).

(** [geom.type] with the [arcs] of that shape. *)
Inductive Shape : Type :=
| Polygon (rings : list (list Z))
| MultiPolygon (polygons : list (list (list Z))).

Record Geometry : Type := { id : jsstring; shape : Shape }.

Record Topology : Type := {
  transform : option Transform;
  arcs : list Arc;
  geometries : list Geometry
}.

Record BBox : Type := {
  x0 : number; y0 : number; x1 : number; y1 : number; w : number; h : number
}.

(** [topology.transform || { scale: [1, 1], translate: [0, 0] }]. *)
Definition transformOf (topology : Topology) : Transform :=
  match transform topology with
  | Some t => t
  | None => {| scale := (1, 1); translate := (0, 0) |}
  end.

(** The body of [arc.map] with the running sums [x], [y] threaded through. *)
Fixpoint decodeFrom (sc tr : Q * Q) (x y : Q) (arc : Arc) : Coords :=
  match arc with
  | [] => []
  | p :: rest =>
      let x := x + fst p in
      let y := y + snd p in
      (x * fst sc + fst tr, y * snd sc + snd tr) :: decodeFrom sc tr x y rest
  end.

Definition decodeArc (sc tr : Q * Q) (arc : Arc) : Coords :=
  decodeFrom sc tr 0 0 arc.

Definition decode (topology : Topology) : list Coords :=
  let t := transformOf topology in
  map (decodeArc (scale t) (translate t)) (arcs topology).

(** [~i]: the operand goes through [ToInt32] first. *)
Definition toInt32 (i : Z) : Z := ((i + 2 ^ 31) mod 2 ^ 32 - 2 ^ 31)%Z.
Definition bitNot (i : Z) : Z := Z.lnot (toInt32 i).

(** [decoded[i]], then a property read on it. *)
Definition arcAt (decoded : list Coords) (i : Z) : result Coords :=
  if (i <? 0)%Z then throw TypeError
  else match nth_error decoded (Z.to_nat i) with
       | Some a => ret a
       | None => throw TypeError
       end.

(** The inner [for (let j ...)] of [ring]: the first point is pushed only
    onto an empty [coords]. *)
Definition pushArc (coords arc : Coords) : Coords :=
  match arc with
  | [] => coords
  | p :: rest =>
      (match coords with [] => [p] | _ :: _ => coords end) ++ rest
  end.

Fixpoint ringFrom (decoded : list Coords) (coords : Coords) (idx : list Z)
  : result Coords :=
  match idx with
  | [] => ret coords
  | i :: rest =>
      arc <- (if (0 <=? i)%Z then arcAt decoded i
              else a <- arcAt decoded (bitNot i) ;; ret (rev a)) ;;
      ringFrom decoded (pushArc coords arc) rest
  end.

Definition ring (decoded : list Coords) (idx : list Z) : result Coords :=
  ringFrom decoded [] idx.

Definition polysOf (decoded : list Coords) (s : Shape)
  : result (list (list Coords)) :=
  match s with
  | MultiPolygon polygons => mapM (fun a => mapM (ring decoded) a) polygons
  | Polygon rings => r <- mapM (ring decoded) rings ;; ret [r]
  end.

(** The four comparisons done for one point, on the accumulators
    [(x0, y0, x1, y1)]. *)
Definition grow (acc : number * number * number * number) (x y : number)
  : number * number * number * number :=
  let '(x0, y0, x1, y1) := acc in
  (if lt x x0 then x else x0,
   if lt y y0 then y else y0,
   if gt x x1 then x else x1,
   if gt y y1 then y else y1).

Definition emptyBox : number * number * number * number :=
  (PInf, PInf, NInf, NInf).

Definition growRing (acc : number * number * number * number) (r : Coords) :=
  fold_left (fun a p => grow a (Fin (fst p)) (Fin (snd p))) r acc.

Definition growPoly (acc : number * number * number * number)
  (poly : list Coords) :=
  fold_left growRing poly acc.

Definition boxOf (polys : list (list Coords)) :=
  fold_left growPoly polys emptyBox.

Definition toBBox (acc : number * number * number * number) : BBox :=
  let '(x0, y0, x1, y1) := acc in
  {| x0 := x0; y0 := y0; x1 := x1; y1 := y1;
     w := sub x1 x0; h := sub y1 y0 |}.

Definition getStateBBoxFromTopology (topology : Topology) (fips : jsstring)
  : result BBox :=
  let decoded := decode topology in
  match find (fun g => Str.eqb (id g) fips) (geometries topology) with
  | None => throw MissingGeometry
  | Some geom =>
      polys <- polysOf decoded (shape geom) ;;
      ret (toBBox (boxOf polys))
  end.

End Topo.

Import Topo.

(* ================================================================== *)
(** ** getExpectedAlignedCityPoint *)

Module Aligner.

Local Open Scope exn_scope.

(** A city, district or school of [public/data/<state>.json]; a coordinate
    that is missing or not a number is read as [NaN]. *)
Record StatePoint : Type := { name : jsstring; x : number; y : number }.

(** [cities], [districts], [schools] of the parsed file; an absent
    [districts] or [schools] is the empty list ([|| []]), and [cities] is
    there, since the lookup reads it first. *)
Record StateData : Type := {
  cities : list StatePoint;
  districts : list StatePoint;
  schools : list StatePoint
}.

(** The returned [{ x, y }]. *)
Record Point : Type := { px : number; py : number }.

Definition finitePoint (p : StatePoint) : bool :=
  isFinite (x p) && isFinite (y p).

Definition allPtsOf (stateData : StateData) : list StatePoint :=
  filter finitePoint
         (cities stateData ++ districts stateData ++ schools stateData).

(** [(dx0, dy0, dx1, dy1)] after the loop over [allPts]. *)
Definition cloudBox (allPts : list StatePoint)
  : number * number * number * number :=
  fold_left (fun a p => grow a (x p) (y p)) allPts emptyBox.

(** From [const dw] to the returned object. *)
Definition place (pad : number) (bb : BBox)
  (box : number * number * number * number) (city : StatePoint) : Point :=
  let '(dx0, dy0, dx1, dy1) := box in
  let dw := sub dx1 dx0 in
  let dh := sub dy1 dy0 in
  let availW := mul (w bb) (sub (Fin 1) (mul (Fin 2) pad)) in
  let availH := mul (h bb) (sub (Fin 1) (mul (Fin 2) pad)) in
  let alignScale := Num.min (div availW dw) (div availH dh) in
  let scaledW := mul dw alignScale in
  let scaledH := mul dh alignScale in
  let ox := add (add (x0 bb) (mul (w bb) pad))
                (div (sub availW scaledW) (Fin 2)) in
  let oy := add (add (y0 bb) (mul (h bb) pad))
                (div (sub availH scaledH) (Fin 2)) in
  {| px := add ox (mul (sub (x city) dx0) alignScale);
     py := add oy (mul (sub (y city) dy0) alignScale) |}.

(** The function after the city lookup, with the padding as an argument and
    the outcome of [getStateBBoxFromTopology(fips)] as [bbr]. *)
Definition alignWith (pad : number) (stateData : StateData)
  (city : StatePoint) (bbr : result BBox) : result Point :=
  let allPts := allPtsOf stateData in
  if (List.length allPts =? 0)%nat then throw NoPoints
  else bb <- bbr ;; ret (place pad bb (cloudBox allPts) city).

(** [const pad = 0.04]. *)
Definition pad : number := Fin (4 # 100).

Section Lookup.

(** [String.prototype.toLowerCase], left to the host. *)
Variable toLowerCase : jsstring -> jsstring.

Definition getExpectedAlignedCityPoint (stateData : StateData)
  (topology : Topology) (fips cityName : jsstring) : result Point :=
  match find (fun c => Str.eqb (toLowerCase (name c)) (toLowerCase cityName))
             (cities stateData) with
  | None => throw MissingCity
  | Some city =>
      alignWith pad stateData city (getStateBBoxFromTopology topology fips)
  end.

End Lookup.

End Aligner.

(* ================================================================== *)
(** ** Inputs taken from the tests and from the specification *)

Module Fixtures.

Definition entry (n : string) (o : Q) : Entry :=
  {| Geo.name := js n; order := Some o; adminLevel := None;
     description := None |}.

Definition admin (n : string) (o lvl : Q) : Entry :=
  {| Geo.name := js n; order := Some o; adminLevel := Some lvl;
     description := None |}.

(** [canalWinchesterFixture] of the unit tests: the reverse-geocoding
    answer for Canal Winchester, OH. *)
Definition canalWinchesterFixture : BigDataCloudResponse :=
  {| city := Some (js "Township of Madison");
     locality := Some (js "Canal Winchester");
     principalSubdivision := Some (js "Ohio");
     principalSubdivisionCode := Some (js "US-OH");
     localityInfo := Some
       {| administrative := Some
            [ admin "United States of America (the)" 2 2;
              admin "Ohio" 6 4;
              admin "Fairfield County" 7 6;
              admin "Township of Madison" 8 7;
              admin "Township of Violet" 10 7;
              admin "Canal Winchester" 12 8 ];
          informative := Some
            [ entry "North America" 1;
              entry "contiguous United States" 3;
              entry "Central Lowlands" 4;
              entry "America/New_York" 5;
              entry "43110" 9;
              entry "39-045-80206" 11 ] |} |}.

(** [{locality: "Township of Madison",
      localityInfo: {informative: [{name: "Canal Winchester", order: 5}]}}]. *)
Definition madisonInput : BigDataCloudResponse :=
  {| city := None;
     locality := Some (js "Township of Madison");
     principalSubdivision := None;
     principalSubdivisionCode := None;
     localityInfo := Some
       {| administrative := None;
          informative := Some [ entry "Canal Winchester" 5 ] |} |}.

(** An informative entry of order 5 with an empty name, and a city. *)
Definition namelessInput : BigDataCloudResponse :=
  {| city := Some (js "Columbus");
     locality := None;
     principalSubdivision := None;
     principalSubdivisionCode := None;
     localityInfo := Some
       {| administrative := None;
          informative := Some [ entry "" 5 ] |} |}.

(** A topology whose region 39 is a polygon without rings. *)
Definition emptyRegion : Topology :=
  {| transform := None;
     arcs := [];
     geometries := [ {| id := js "39"; shape := Polygon [] |} ] |}.

(** A topology whose region 39 is the rectangle from (0, 0) to (100, 50),
    drawn by one arc. *)
Definition rectangle : Topology :=
  {| transform := None;
     arcs := [ [ (0, 0); (100, 0); (0, 50); (-100 # 1, 0); (0, -50 # 1) ] ];
     geometries := [ {| id := js "39"; shape := Polygon [ [0%Z] ] |} ] |}.


Definition pointAt (n : string) (px py : Q) : Aligner.StatePoint :=
  {| Aligner.name := js n; Aligner.x := Fin px; Aligner.y := Fin py |}.

(** A cloud spanning (0, 0) to (10, 10) with a city at its centre. *)
Definition squareState : Aligner.StateData :=
  {| Aligner.cities := [ pointAt "Centre" 5 5 ];
     Aligner.districts := [ pointAt "South West" 0 0 ];
     Aligner.schools := [ pointAt "North East" 10 10 ] |}.

(** A cloud of two points on one vertical line: its width is zero. *)
Definition columnState : Aligner.StateData :=
  {| Aligner.cities := [ pointAt "Lower" 3 0; pointAt "Upper" 3 10 ];
     Aligner.districts := [];
     Aligner.schools := [] |}.

Definition noPoints : Aligner.StateData :=
  {| Aligner.cities := [ {| Aligner.name := js "Nowhere";
                            Aligner.x := NaN; Aligner.y := NaN |} ];
     Aligner.districts := [];
     Aligner.schools := [] |}.

(** The target of the alignment scenario: x0 = y0 = 0, w = 100, h = 50. *)
Definition targetBox : BBox :=
  {| x0 := Fin 0; y0 := Fin 0; x1 := Fin 100; y1 := Fin 50;
     w := Fin 100; h := Fin 50 |}.

(** [toLowerCase] on the ASCII letters. *)
Definition asciiLower (s : jsstring) : jsstring :=
  map (fun c => if ((65 <=? c)%N && (c <=? 90)%N) then (c + 32)%N else c) s.

(** A response with the three text fields and the two lists as given. *)
Definition response (c l p : option string)
  (adm inf : option (list Entry)) : BigDataCloudResponse :=
  {| city := option_map js c;
     locality := option_map js l;
     principalSubdivision := option_map js p;
     principalSubdivisionCode := None;
     localityInfo :=
       match adm, inf with
       | None, None => None
       | _, _ => Some {| administrative := adm; informative := inf |}
       end |}.

End Fixtures.

(* ================================================================== *)
(** ** Notions of the specification, used to state the properties *)

Module Spec.



(** [m] is the least (greatest) value of [l]. *)
Definition lowest (m : Q) (l : list Q) : Prop :=
  (exists a, In a l /\ a == m) /\ forall a, In a l -> m <= a.

Definition highest (m : Q) (l : list Q) : Prop :=
  (exists a, In a l /\ a == m) /\ forall a, In a l -> a <= m.

(** The number of rings a geometry resolves to. *)
Definition ringCount (s : Shape) : nat :=
  match s with
  | Polygon rings => List.length rings
  | MultiPolygon polygons => List.length (concat polygons)
  end.

(** The rational behind a finite coordinate. *)
Definition valueOf (a : number) : Q :=
  match a with Fin q => q | _ => 0 end.

Definition xsOf (pts : list Aligner.StatePoint) : list Q :=
  map (fun p => valueOf (Aligner.x p)) pts.

Definition ysOf (pts : list Aligner.StatePoint) : list Q :=
  map (fun p => valueOf (Aligner.y p)) pts.

(** One accumulator of the bounding-box loops. *)
Definition keepLow (acc v : number) : number := if lt v acc then v else acc.
Definition keepHigh (acc v : number) : number := if gt v acc then v else acc.

(** The alignment, as the specification writes it, for a target box with
    origin [(bx0, by0)] and sides [bw], [bh], and a cloud from [(dx0, dy0)]
    to [(dx1, dy1)]. *)
Definition alignScale (pad bw bh dx0 dy0 dx1 dy1 : Q) : Q :=
  Qmin (bw * (1 - 2 * pad) / (dx1 - dx0)) (bh * (1 - 2 * pad) / (dy1 - dy0)).

Definition origin (pad b0 side d0 d1 s : Q) : Q :=
  b0 + side * pad + (side * (1 - 2 * pad) - (d1 - d0) * s) / 2.

Definition alignedX (pad bx0 bw bh dx0 dy0 dx1 dy1 x : Q) : Q :=
  let s := alignScale pad bw bh dx0 dy0 dx1 dy1 in
  origin pad bx0 bw dx0 dx1 s + (x - dx0) * s.

Definition alignedY (pad by0 bw bh dx0 dy0 dx1 dy1 y : Q) : Q :=
  let s := alignScale pad bw bh dx0 dy0 dx1 dy1 in
  origin pad by0 bh dy0 dy1 s + (y - dy0) * s.

(** An informative entry that step 1 of the resolver may return: an order
    of at least 4, a name that is not empty and, once trimmed, does not match
    the administrative pattern. *)
Definition eligible (e : Entry) : Prop :=
  (exists o, order e = Some o /\ 4 <= o)
  /\ Geo.name e <> []
  /\ ADMIN_PATTERN_test (trim (Geo.name e)) = false.

(** A field that is there and is not blank. *)
Definition filled (f : option jsstring) : bool := truthy (trimmed f).

(** [with informative := inf]. *)
Definition withInformative (geo : BigDataCloudResponse)
  (inf : option (list Entry)) : BigDataCloudResponse :=
  {| city := city geo;
     locality := locality geo;
     principalSubdivision := principalSubdivision geo;
     principalSubdivisionCode := principalSubdivisionCode geo;
     localityInfo :=
       match localityInfo geo with
       | Some li => Some {| administrative := administrative li;
                            informative := inf |}
       | None => None
       end |}.

End Spec.

(* ================================================================== *)
(** ** Further notions used to state properties of the map code *)

Module MapSpec.

(** The arc an index of a ring stands for: [decoded[i]], or [decoded[~i]]
    reversed when [i] is negative. *)
Definition resolveArc (decoded : list Coords) (i : Z) : result Coords :=
  if (0 <=? i)%Z then arcAt decoded i
  else bind (arcAt decoded (bitNot i)) (fun a => ret (rev a)).

(** The arc an index refers to: [i] itself, or [~i] when [i] is negative. *)
Definition arcId (i : Z) : Z := if (0 <=? i)%Z then i else bitNot i.

(** All the arc indices of a geometry. *)
Definition indicesOf (s : Shape) : list Z :=
  match s with
  | Polygon rings => concat rings
  | MultiPolygon polygons => concat (concat polygons)
  end.

(** All the points of a list of polygons. *)
Definition pointsOf (polys : list (list Coords)) : Coords :=
  concat (concat polys).

End MapSpec.

(* ================================================================== *)
(** ** Further inputs *)

Module MoreFixtures.

(** The only arc of [Fixtures.rectangle], decoded. *)
Definition rectangleArc : Coords :=
  [(0, 0); (100, 0); (100, 50); (0, 50); (0, 0)].

End MoreFixtures.

(* ================================================================== *)
(** ** Further notions used to state properties of the label resolver *)

Module LabelSpec.

(** A text field holding a name that is not blank and, once trimmed, does
    not match the administrative pattern. *)
Definition plain (f : option jsstring) : bool :=
  Spec.filled f && negb (ADMIN_PATTERN_test (trimmed f)).

(** An administrative entry the locality-first variant may return: an
    adminLevel of at least 8, a name that is not empty and, once trimmed, does
    not match the administrative pattern. *)
Definition eligibleAdmin (e : Entry) : Prop :=
  (exists lvl, adminLevel e = Some lvl /\ 8 <= lvl)
  /\ Geo.name e <> []
  /\ ADMIN_PATTERN_test (trim (Geo.name e)) = false.

Definition entriesOf (l : option (list Entry)) : list Entry :=
  match l with Some l => l | None => [] end.

End LabelSpec.

(* ================================================================== *)
(** ** URLSearchParams and buildExploreHref *)

Module Url.

Definition isHighSurrogate (c : N) : bool := (55296 <=? c)%N && (c <=? 56319)%N.
Definition isLowSurrogate (c : N) : bool := (56320 <=? c)%N && (c <=? 57343)%N.

(** Conversion to a [USVString]: a surrogate pair is one scalar value, a
    lone surrogate becomes U+FFFD. *)
Fixpoint toScalars (s : jsstring) : list N :=
  match s with
  | [] => []
  | c :: rest =>
      if isHighSurrogate c then
        match rest with
        | d :: rest' =>
            if isLowSurrogate d
            then (65536 + (c - 55296) * 1024 + (d - 56320))%N :: toScalars rest'
            else 65533%N :: toScalars rest
        | [] => [65533%N]
        end
      else if isLowSurrogate c then 65533%N :: toScalars rest
      else c :: toScalars rest
  end.

(** The UTF-8 bytes of a scalar value. *)
Definition utf8 (cp : N) : list N :=
  if (cp <? 128)%N then [cp]
  else if (cp <? 2048)%N then
    [192 + cp / 64; 128 + cp mod 64]%N
  else if (cp <? 65536)%N then
    [224 + cp / 4096; 128 + (cp / 64) mod 64; 128 + cp mod 64]%N
  else
    [240 + (cp / 262144) mod 8; 128 + (cp / 4096) mod 64;
     128 + (cp / 64) mod 64; 128 + cp mod 64]%N.

Definition isAlphanumeric (b : N) : bool :=
  ((48 <=? b)%N && (b <=? 57)%N) || ((65 <=? b)%N && (b <=? 90)%N)
  || ((97 <=? b)%N && (b <=? 122)%N).

(** The bytes the application/x-www-form-urlencoded percent-encode set
    leaves alone: the ASCII alphanumerics and [*], [-], [.], [_]. *)
Definition unreserved (b : N) : bool :=
  isAlphanumeric b || (b =? 42)%N || (b =? 45)%N || (b =? 46)%N || (b =? 95)%N.

(** An upper-case hexadecimal digit. *)
Definition hexDigit (n : N) : N :=
  let d := (n mod 16)%N in
  if (d <? 10)%N then (48 + d)%N else (55 + d)%N.

(** One byte of a name or value, with the space written as [+]. *)
Definition encodeByte (b : N) : jsstring :=
  if (b =? 32)%N then [43%N]
  else if unreserved b then [b]
  else [37%N; hexDigit (b / 16); hexDigit b].

Definition formEncode (s : jsstring) : jsstring :=
  flat_map encodeByte (flat_map utf8 (toScalars s)).

(** The list of a [URLSearchParams] object. *)
Definition Params : Type := list (jsstring * jsstring).

Definition hasName (name : jsstring) (l : Params) : bool :=
  existsb (fun p => Str.eqb (fst p) name) l.

(** [params.set(name, value)]: the first pair of that name takes the value
    and the others go; without such a pair, the pair is appended. *)
Fixpoint replaceFirst (name value : jsstring) (l : Params) : Params :=
  match l with
  | [] => []
  | p :: rest =>
      if Str.eqb (fst p) name
      then (name, value)
           :: filter (fun q => negb (Str.eqb (fst q) name)) rest
      else p :: replaceFirst name value rest
  end.

Definition set (name value : jsstring) (l : Params) : Params :=
  if hasName name l then replaceFirst name value l
  else l ++ [(name, value)].

(** [params.toString()]: the pairs as [name=value], joined by [&]. *)
Definition serialize (l : Params) : jsstring :=
  fold_left
    (fun output p =>
       (match output with [] => [] | _ :: _ => output ++ [38%N] end)
       ++ formEncode (fst p) ++ [61%N] ++ formEncode (snd p))
    l [].

End Url.

Module ExploreHref.

Import Url.

Section Href.

(** [String(n)] on numbers, left to the host. *)
Variable numberToString : number -> jsstring.

Definition withState (state : option jsstring) (params : Params) : Params :=
  match state with
  | Some s => if truthy s then set (js "state") s params else params
  | None => params
  end.

Definition withCoordinates (lat lon : option number) (params : Params)
  : Params :=
  match lat, lon with
  | Some la, Some lo =>
      set (js "lon") (numberToString lo)
          (set (js "lat") (numberToString la) params)
  | _, _ => params
  end.

Definition withCity (city : option jsstring) (params : Params) : Params :=
  match city with
  | Some c => if truthy c then set (js "city") c params else params
  | None => params
  end.

Definition buildExploreHref (state : option jsstring) (lat lon : option number)
  (city : option jsstring) : jsstring :=
  let params := withCity city (withCoordinates lat lon (withState state [])) in
  let qs := serialize params in
  if truthy qs then js "/explore.html?" ++ qs else js "/explore.html".

End Href.

End ExploreHref.

Module UrlSpec.

(** The characters a serialized query is made of: the unreserved ones and
    [+], [%], [&], [=]. *)
Definition urlSafe (c : N) : bool :=
  Url.unreserved c || (c =? 43)%N || (c =? 37)%N || (c =? 38)%N || (c =? 61)%N.

End UrlSpec.

(* ================================================================== *)
(** ** JSON values, as [JSON.parse] and [res.json()] return them *)

Module Json.

#[warnings="-register-all"]
Inductive json : Type :=
| JNull
| JBool (b : bool)
| JNum (n : number)
| JStr (s : jsstring)
| JArr (items : list json)
| JObj (fields : list (jsstring * json)).

(** [v] in a condition; [None] stands for [undefined]. *)
Definition isTruthy (v : option json) : bool :=
  match v with
  | None | Some JNull => false
  | Some (JBool b) => b
  | Some (JNum (Fin q)) => negb (Qis0 q)
  | Some (JNum NaN) => false
  | Some (JNum _) => true
  | Some (JStr s) => Str.truthy s
  | Some (JArr _) | Some (JObj _) => true
  end.

(** [typeof v === "object"]. *)
Definition isObject (v : option json) : bool :=
  match v with
  | Some JNull | Some (JArr _) | Some (JObj _) => true
  | _ => false
  end.

(** [v != null]. *)
Definition notNull (v : option json) : bool :=
  match v with
  | None | Some JNull => false
  | Some _ => true
  end.

Fixpoint lookup (key : jsstring) (fields : list (jsstring * json))
  : option json :=
  match fields with
  | [] => None
  | (k, v) :: rest => if Str.eqb k key then Some v else lookup key rest
  end.

(** [v.key] for a key that no prototype defines ([national], [US],
    [states], [text], [numerator], [denominator]) and a [v] that is not
    [null] or [undefined]: the own property of an object (its keys are
    distinct after parsing), [undefined] on arrays and primitives. *)
Definition get (v : option json) (key : jsstring) : option json :=
  match v with
  | Some (JObj fields) => lookup key fields
  | _ => None
  end.

(** The decimal digits of a natural number, most significant first. *)
Fixpoint digitsFrom (fuel : nat) (n : N) (acc : jsstring) : jsstring :=
  match fuel with
  | O => acc
  | S fuel' =>
      let acc' := (48 + n mod 10)%N :: acc in
      if (n <? 10)%N then acc' else digitsFrom fuel' (n / 10)%N acc'
  end.

(** [String(n)] for a natural number [n]. *)
Definition decimal (n : N) : jsstring := digitsFrom (S (N.size_nat n)) n [].

(** [Object.entries(v)] for an object or an array; the keys of an array are
    its indices in decimal. *)
Definition entries (v : json) : list (jsstring * json) :=
  match v with
  | JObj fields => fields
  | JArr items =>
      combine (map (fun i => decimal (N.of_nat i)) (seq 0 (List.length items)))
              items
  | _ => []
  end.

End Json.

Import Json.

(* ================================================================== *)
(** ** The worker: validation, choice of the record, parsing, escaping *)

Module Worker.

Local Open Scope exn_scope.

Definition isDigit (c : N) : bool := (48 <=? c)%N && (c <=? 57)%N.

(** The longest prefix of [s] whose code units satisfy [f], and the rest:
    what a greedy [\d+] or [\s+] consumes. *)
Fixpoint span (f : N -> bool) (s : jsstring) : jsstring * jsstring :=
  match s with
  | [] => ([], [])
  | c :: rest =>
      if f c then let '(a, b) := span f rest in (c :: a, b) else ([], s)
  end.

(** Matches a literal exactly (no case folding); the rest on success. *)
Fixpoint matchExact (w s : jsstring) : option jsstring :=
  match w, s with
  | [], _ => Some s
  | _ :: _, [] => None
  | a :: w', c :: s' => if (a =? c)%N then matchExact w' s' else None
  end.

(** [TEXT_RE.test(s)] for [/^\d+ out of \d+$/]. *)
Definition TEXT_RE_test (s : jsstring) : bool :=
  let '(d1, r1) := span isDigit s in
  Str.truthy d1
  && match matchExact (js " out of ") r1 with
     | Some r2 =>
         let '(d2, r3) := span isDigit r2 in
         Str.truthy d2 && negb (Str.truthy r3)
     | None => false
     end.

(** [v && typeof v.text === "string" && TEXT_RE.test(v.text)]. *)
Definition isValidValue (v : option json) : bool :=
  isTruthy v
  && match get v (js "text") with
     | Some (JStr text) => TEXT_RE_test text
     | _ => false
     end.

Definition validateData (d : option json) : bool :=
  if negb (isTruthy d) || negb (isObject d) then false
  else
    let national := get d (js "national") in
    if negb (isTruthy national)
       || negb (isTruthy (get national (js "US")))
       || negb (isValidValue (get national (js "US")))
    then false
    else
      let states := get d (js "states") in
      if negb (isTruthy states) || negb (isObject states) then false
      else
        match states with
        | Some st =>
            forallb (fun kv => (List.length (fst kv) =? 2)%nat
                               && isValidValue (Some (snd kv)))
                    (entries st)
        | None => false
        end.

(** [s.match(/^(\d+)\s+out\s+of\s+(\d+)$/)]: the two groups of a match. *)
Definition matchRatio (s : jsstring) : option (jsstring * jsstring) :=
  let '(d1, r1) := span isDigit s in
  let '(w1, r2) := span isWhiteSpace r1 in
  if Str.truthy d1 && Str.truthy w1 then
    match matchExact (js "out") r2 with
    | Some r3 =>
        let '(w2, r4) := span isWhiteSpace r3 in
        if Str.truthy w2 then
          match matchExact (js "of") r4 with
          | Some r5 =>
              let '(w3, r6) := span isWhiteSpace r5 in
              let '(d2, r7) := span isDigit r6 in
              if Str.truthy w3 && Str.truthy d2 && negb (Str.truthy r7)
              then Some (d1, d2) else None
          | None => None
          end
        else None
    | None => None
    end
  else None.

(** [Number(digits)] for a string of decimal digits (exact, as all the
    arithmetic here). *)
Definition digitsValue (digits : jsstring) : N :=
  fold_left (fun acc c => (10 * acc + (c - 48))%N) digits 0%N.

Definition numberOfDigits (digits : jsstring) : json :=
  JNum (Fin (inject_Z (Z.of_N (digitsValue digits)))).

(** The second half of [parseRatio]: [value.text.match(...)] and the two
    groups as numbers.  Calling [match] on what is not a string and indexing
    a failed match throw a [TypeError]. *)
Definition parseText (value : option json) : result (json * json) :=
  match get value (js "text") with
  | Some (JStr text) =>
      match matchRatio text with
      | Some (a, b) => ret (numberOfDigits a, numberOfDigits b)
      | None => throw TypeError
      end
  | _ => throw TypeError
  end.

(** [parseRatio(value)]: the pair [(numerator, denominator)] of the returned
    object.  Reading a property of [null] or [undefined] throws a
    [TypeError]. *)
Definition parseRatio (value : option json) : result (json * json) :=
  match value with
  | None | Some JNull => throw TypeError
  | Some _ =>
      match get value (js "numerator"), get value (js "denominator") with
      | Some n, Some d =>
          if notNull (Some n) && notNull (Some d) then ret (n, d)
          else parseText value
      | _, _ => parseText value
      end
  end.

(** [s.replaceAll(c, rep)] for a pattern of one code unit and a replacement
    without [$]. *)
Definition replaceAll (c : N) (rep : jsstring) (s : jsstring) : jsstring :=
  flat_map (fun x => if (x =? c)%N then rep else [x]) s.

Definition escapeHtml (s : jsstring) : jsstring :=
  replaceAll 34 (js "&quot;")
    (replaceAll 62 (js "&gt;")
       (replaceAll 60 (js "&lt;")
          (replaceAll 38 (js "&amp;") s))).

End Worker.

Module WorkerSpec.

(** The four characters [escapeHtml] rewrites. *)
Definition special (c : N) : bool :=
  (c =? 38)%N || (c =? 60)%N || (c =? 62)%N || (c =? 34)%N.

(** What one code unit becomes. *)
Definition escapeChar (c : N) : jsstring :=
  if (c =? 38)%N then js "&amp;"
  else if (c =? 60)%N then js "&lt;"
  else if (c =? 62)%N then js "&gt;"
  else if (c =? 34)%N then js "&quot;"
  else [c].




(** A small [naep.json]: the national record and one state. *)
Definition sampleData : option json :=
  Some (JObj [ (js "national",
                JObj [ (js "US", JObj [ (js "text", JStr (js "7 out of 10")) ]) ]);
               (js "states",
                JObj [ (js "OH", JObj [ (js "text", JStr (js "3 out of 4")) ]) ]) ]).

End WorkerSpec.

(* ================================================================== *)
(** * The script that writes the state data files *)

(** [scripts/prepare-map-data.js] projects the places of an intermediate
    file and writes [public/data/<state>.json], the file the aligner
    reads. *)

Module MapData.

(** An entry of [schools], [districts] or [cities] of an intermediate file:
    its name and the two fields the projection reads (a missing one is
    [NaN]).  The other fields are copied and the aligner does not read
    them. *)
Record Place : Type := { name : jsstring; lon : number; lat : number }.

Record Intermediate : Type := {
  schools : list Place;
  districts : list Place;
  cities : list Place
}.

Section Projection.

(** [projection([lon, lat])] of [geoAlbersUsa()]: [null] outside the
    projection bounds, else a point of the 975 x 610 viewport. *)
Variable projection : number -> number -> option (Q * Q).

(** [Math.round(v * 10) / 10]. *)
Definition roundTenth (v : Q) : Q := inject_Z (Math_round (v * 10)) / 10.

Definition projectPoint (lon lat : number) : option (Q * Q) :=
  match projection lon lat with
  | None => None
  | Some (a, b) => Some (roundTenth a, roundTenth b)
  end.

(** One of the three loops of [processState]: the places that project, in
    order, with their rounded coordinates. *)
Definition projectAll (places : list Place) : list Aligner.StatePoint :=
  flat_map (fun s =>
              match projectPoint (lon s) (lat s) with
              | None => []
              | Some (px, py) =>
                  [ {| Aligner.name := name s;
                       Aligner.x := Fin px; Aligner.y := Fin py |} ]
              end) places.

(** The [schools], [districts] and [cities] of the written file. *)
Definition processState (data : Intermediate) : Aligner.StateData :=
  {| Aligner.cities := projectAll (cities data);
     Aligner.districts := projectAll (districts data);
     Aligner.schools := projectAll (schools data) |}.

End Projection.

End MapData.

Module MapDataSpec.

(** The place projects. *)
Definition projects (projection : number -> number -> option (Q * Q))
  (s : MapData.Place) : bool :=
  match projection (MapData.lon s) (MapData.lat s) with
  | Some _ => true
  | None => false
  end.

(** All places of an intermediate file, in the order the aligner reads the
    written file. *)
Definition placesOf (data : MapData.Intermediate) : list MapData.Place :=
  MapData.cities data ++ MapData.districts data ++ MapData.schools data.

End MapDataSpec.

(* ================================================================== *)
(** * Properties *)

(** ** Comparisons and rounding *)

Section NumFacts.

Lemma Qltb_true (p q : Q) : Qltb p q = true <-> p < q.
Proof.
  unfold Qltb. rewrite Qlt_alt.
  destruct (p ?= q); split; intro H; congruence.
Qed.

Lemma Qltb_false (p q : Q) : Qltb p q = false <-> q <= p.
Proof.
  pose proof (Qltb_true p q) as T.
  destruct (Qltb p q); split; intro H; try congruence.
  - exfalso. apply (Qle_not_lt _ _ H). now apply T.
  - apply Qnot_lt_le. intro L. apply T in L. discriminate.
Qed.

Lemma Qltb_spec (p q : Q) : reflect (p < q) (Qltb p q).
Proof.
  destruct (Qltb p q) eqn:E; constructor.
  - now apply Qltb_true.
  - apply Qltb_false in E. now apply Qle_not_lt.
Qed.

Lemma Qeq_bool_spec (p q : Q) : reflect (p == q) (Qeq_bool p q).
Proof.
  destruct (Qeq_bool p q) eqn:E; constructor.
  - now apply Qeq_bool_iff.
  - now apply Qeq_bool_neq.
Qed.

Lemma Qis0_spec (p : Q) : reflect (p == 0) (Qis0 p).
Proof. apply Qeq_bool_spec. Qed.

Lemma Qle_bool_spec (p q : Q) : reflect (p <= q) (Qle_bool p q).
Proof.
  destruct (Qle_bool p q) eqn:E; constructor.
  - now apply Qle_bool_iff.
  - intro H. apply Qle_bool_iff in H. congruence.
Qed.


Lemma Math_round_comp (p q : Q) : p == q -> Math_round p = Math_round q.
Proof. intro H. unfold Math_round. now rewrite H. Qed.

End NumFacts.

(** ** proficiencyToFraction *)

Section FractionizerFacts.

Import Fractionizer.

Lemma numOf_comp (b b' : Q) (d : Z) : b == b' -> numOf b d = numOf b' d.
Proof. intro H. unfold numOf. apply Math_round_comp. now rewrite H. Qed.

Lemma errorOf_comp (b b' : Q) (d : Z) : b == b' -> errorOf b d == errorOf b' d.
Proof.
  intro H. unfold errorOf. rewrite (numOf_comp b b' d H). now rewrite H.
Qed.

(** The loop, unrolled on the three denominators. *)
Lemma search_unfold (b : Q) :
  search b =
  step b (step b {| bestNum := numOf b 4; bestDen := 4;
                    bestError := Fin (errorOf b 4) |} 5%Z) 10%Z.
Proof. reflexivity. Qed.

Lemma step_Fin (b : Q) (n d : Z) (e : Q) (den : Z) :
  step b {| bestNum := n; bestDen := d; bestError := Fin e |} den =
  if Qltb (errorOf b den) e || (Qeq_bool (errorOf b den) e && (d <? den)%Z)
  then {| bestNum := numOf b den; bestDen := den;
          bestError := Fin (errorOf b den) |}
  else {| bestNum := n; bestDen := d; bestError := Fin e |}.
Proof. reflexivity. Qed.

(** What the loop leaves in [bestNum], [bestDen] and [bestError]. *)
Lemma search_spec (b : Q) :
  let st := search b in
  In (bestDen st) denominators
  /\ bestNum st = numOf b (bestDen st)
  /\ bestError st = Fin (errorOf b (bestDen st))
  /\ (forall d, In d denominators ->
        errorOf b (bestDen st) <= errorOf b d
        /\ (errorOf b d == errorOf b (bestDen st) -> (d <= bestDen st)%Z)).
Proof.
  cbv zeta. rewrite search_unfold, step_Fin.
  destruct (Qltb_spec (errorOf b 5) (errorOf b 4)) as [H54|H54];
    destruct (Qeq_bool_spec (errorOf b 5) (errorOf b 4)) as [E54|E54];
    cbn [orb andb Z.ltb Z.compare Pos.compare Pos.compare_cont];
    try (exfalso; lra); rewrite step_Fin.
  all: match goal with
       | |- context [Qltb ?a ?c] =>
           destruct (Qltb_spec a c) as [H10|H10];
           destruct (Qeq_bool_spec a c) as [E10|E10]
       end;
    cbn [orb andb Z.ltb Z.compare Pos.compare Pos.compare_cont
         bestError bestDen bestNum];
    try (exfalso; lra).
  all: repeat apply conj; try reflexivity; try (cbn; tauto);
    intros d [<-|[<-|[<-|[]]]]; split; try lra; intros; try lia; try lra.
Qed.

Lemma clamp_range (n d : Z) : (4 <= d)%Z -> (1 <= clamp n d <= d - 1)%Z.
Proof.
  intro Hd. unfold clamp.
  destruct (n <=? 0)%Z eqn:E0; [
    destruct (1 >=? d)%Z eqn:E1 | destruct (n >=? d)%Z eqn:E1 ]; lia.
Qed.

Lemma denominators_ge4 (d : Z) : In d denominators -> (4 <= d)%Z.
Proof. intros [<-|[<-|[<-|[]]]]; lia. Qed.

(** The result only depends on the value of the rational. *)
Lemma proficiencyToFraction_comp (p q : Q) :
  p == q -> proficiencyToFraction p = proficiencyToFraction q.
Proof.
  intro H.
  assert (Hb : 1 - p == 1 - q) by now rewrite H.
  unfold proficiencyToFraction.
  set (b := 1 - p) in *. set (b' := 1 - q) in *.
  assert (Hs : bestNum (search b) = bestNum (search b')
               /\ bestDen (search b) = bestDen (search b')).
  { rewrite !search_unfold, !step_Fin.
    rewrite !(numOf_comp b b' _ Hb).
    assert (E4 := errorOf_comp b b' 4 Hb).
    assert (E5 := errorOf_comp b b' 5 Hb).
    assert (E10 := errorOf_comp b b' 10 Hb).
    destruct (Qltb_spec (errorOf b 5) (errorOf b 4));
      destruct (Qltb_spec (errorOf b' 5) (errorOf b' 4));
      destruct (Qeq_bool_spec (errorOf b 5) (errorOf b 4));
      destruct (Qeq_bool_spec (errorOf b' 5) (errorOf b' 4));
      try (exfalso; lra);
      cbn [orb andb Z.ltb Z.compare Pos.compare Pos.compare_cont
           bestError bestDen bestNum]; rewrite !step_Fin.
    all: repeat match goal with
         | |- context [Qltb ?a ?c] => destruct (Qltb_spec a c)
         | |- context [Qeq_bool ?a ?c] => destruct (Qeq_bool_spec a c)
         end;
      try (exfalso; lra);
      cbn [orb andb Z.ltb Z.compare Pos.compare Pos.compare_cont
           bestError bestDen bestNum];
      split; auto using numOf_comp. }
  destruct Hs as [-> ->]. reflexivity.
Qed.

End FractionizerFacts.

Section FractionizerClaims.

Import Fractionizer.





(** The invariant of the returned fraction holds for every input. *)
Lemma fraction_invariant (p : Q) :
  let f := proficiencyToFraction p in
  In (denominator f) [4; 5; 10]%Z
  /\ (1 <= numerator f <= denominator f - 1)%Z.
Proof.
  cbv zeta. destruct (search_spec (1 - p)) as (Hd & _).
  unfold proficiencyToFraction; cbn [numerator denominator].
  split; [exact Hd|]. apply clamp_range. now apply denominators_ge4.
Qed.



(** C7: for every proficiency in [0, 1] the returned denominator is 4, 5 or
    10 and the numerator lies between 1 and the denominator minus 1; at
    proficiency 0 the numerator is the denominator minus 1 and at
    proficiency 1 it is 1. *)
Theorem proficiencyToFraction_in_range (p : Q) :
  0 <= p <= 1 ->
  let f := proficiencyToFraction p in
  In (denominator f) [4; 5; 10]%Z
  /\ (1 <= numerator f <= denominator f - 1)%Z
  /\ (p == 0 -> numerator f = (denominator f - 1)%Z)
  /\ (p == 1 -> numerator f = 1%Z).
Proof.
  intros _. cbv zeta.
  destruct (fraction_invariant p) as [Hd Hn].
  repeat apply conj; try assumption; try apply Hn.
  - intro H. now rewrite (proficiencyToFraction_comp p 0 H).
  - intro H. now rewrite (proficiencyToFraction_comp p 1 H).
Qed.

Lemma proficiencyToFraction_in_range_witness :
  0 <= 0 <= 1
  /\ let f := proficiencyToFraction 0 in
     In (denominator f) [4; 5; 10]%Z
     /\ (1 <= numerator f <= denominator f - 1)%Z
     /\ (0 == 0 -> numerator f = (denominator f - 1)%Z)
     /\ (0 == 1 -> numerator f = 1%Z).
Proof.
  split; [split; discriminate | apply (proficiencyToFraction_in_range 0)].
  split; discriminate.
Defined.





End FractionizerClaims.

(** ** getStateBBoxFromTopology *)

Section TopoFacts.

Import Spec.



Lemma mapM_nil_rings (decoded : list Coords) (polygons : list (list (list Z))) :
  concat polygons = [] ->
  mapM (fun a => mapM (ring decoded) a) polygons
  = ret (map (fun _ => []) polygons).
Proof.
  induction polygons as [|a rest IH]; intro H; [reflexivity|].
  cbn in H. apply app_eq_nil in H as [-> H].
  cbn. rewrite (IH H). reflexivity.
Qed.

Lemma boxOf_no_rings (polygons : list (list (list Z))) :
  boxOf (map (fun _ => []) polygons) = emptyBox.
Proof.
  unfold boxOf. generalize emptyBox.
  induction polygons as [|a rest IH]; intro acc; [reflexivity|].
  cbn. apply IH.
Qed.



(** The box of a region that resolves to no ring. *)
Lemma no_rings_box (topology : Topology) (fips : jsstring) (geom : Geometry) :
  find (fun g => Str.eqb (id g) fips) (geometries topology) = Some geom ->
  ringCount (shape geom) = 0%nat ->
  getStateBBoxFromTopology topology fips
  = ret {| x0 := PInf; y0 := PInf; x1 := NInf; y1 := NInf;
           w := NInf; h := NInf |}.
Proof.
  intros Hfind Hcount. unfold getStateBBoxFromTopology. rewrite Hfind.
  destruct (shape geom) as [rings|polygons]; cbn in Hcount.
  - apply length_zero_iff_nil in Hcount. subst rings. reflexivity.
  - apply length_zero_iff_nil in Hcount.
    unfold polysOf. rewrite (mapM_nil_rings _ _ Hcount).
    cbn [bind ret]. rewrite boxOf_no_rings. reflexivity.
Qed.

(** C4, as the code has it: when the region's geometry resolves to zero
    rings, [getStateBBoxFromTopology] does not fail; it returns the box
    [x0 = y0 = +Infinity], [x1 = y1 = -Infinity], [w = h = -Infinity]. *)
Theorem zero_rings_infinite_bbox
  (topology : Topology) (fips : jsstring) (geom : Geometry) :
  find (fun g => Str.eqb (id g) fips) (geometries topology) = Some geom ->
  ringCount (shape geom) = 0%nat ->
  failed (getStateBBoxFromTopology topology fips) = false
  /\ getStateBBoxFromTopology topology fips
     = ret {| x0 := PInf; y0 := PInf; x1 := NInf; y1 := NInf;
              w := NInf; h := NInf |}.
Proof.
  intros Hfind Hcount. rewrite (no_rings_box _ _ _ Hfind Hcount).
  split; reflexivity.
Qed.

Lemma zero_rings_infinite_bbox_witness :
  find (fun g => Str.eqb (id g) (js "39")) (geometries Fixtures.emptyRegion)
  = Some {| id := js "39"; shape := Polygon [] |}
  /\ ringCount (Polygon []) = 0%nat
  /\ failed (getStateBBoxFromTopology Fixtures.emptyRegion (js "39")) = false
  /\ getStateBBoxFromTopology Fixtures.emptyRegion (js "39")
     = ret {| x0 := PInf; y0 := PInf; x1 := NInf; y1 := NInf;
              w := NInf; h := NInf |}.
Proof.
  split; [reflexivity|]. split; [reflexivity|].
  apply (zero_rings_infinite_bbox Fixtures.emptyRegion (js "39")
           {| id := js "39"; shape := Polygon [] |}); reflexivity.
Defined.

(** C4 as stated fails: region 39 of [emptyRegion] resolves to zero rings,
    and the call returns a box with infinite sides instead of failing. *)
Lemma zero_rings_not_an_error :
  ringCount (Polygon []) = 0%nat
  /\ find (fun g => Str.eqb (id g) (js "39")) (geometries Fixtures.emptyRegion)
     = Some {| id := js "39"; shape := Polygon [] |}
  /\ failed (getStateBBoxFromTopology Fixtures.emptyRegion (js "39")) = false
  /\ exists bb, getStateBBoxFromTopology Fixtures.emptyRegion (js "39") = ret bb
       /\ x0 bb = PInf /\ x1 bb = NInf /\ w bb = NInf /\ h bb = NInf.
Proof.
  repeat split. eexists. repeat split.
Qed.

End TopoFacts.

(** ** getExpectedAlignedCityPoint *)

Section AlignerFacts.

Import Spec Aligner.

Lemma grow_split (a b c d vx vy : number) :
  grow (a, b, c, d) vx vy
  = (keepLow a vx, keepLow b vy, keepHigh c vx, keepHigh d vy).
Proof. reflexivity. Qed.

(** The four accumulators evolve independently. *)
Lemma cloudBox_from (pts : list StatePoint) :
  forall a b c d,
  fold_left (fun acc p => grow acc (x p) (y p)) pts (a, b, c, d)
  = (fold_left keepLow (map x pts) a, fold_left keepLow (map y pts) b,
     fold_left keepHigh (map x pts) c, fold_left keepHigh (map y pts) d).
Proof.
  induction pts as [|p rest IH]; intros a b c d; [reflexivity|].
  cbn [fold_left map]. rewrite grow_split. apply IH.
Qed.

Lemma keepLow_fold (qs : list Q) :
  forall a, exists m,
    fold_left keepLow (map Fin qs) (Fin a) = Fin m /\ lowest m (a :: qs).
Proof.
  induction qs as [|q rest IH]; intro a.
  - exists a. split; [reflexivity|]. split.
    + exists a. split; [now left | reflexivity].
    + intros z [<-|[]]. apply Qle_refl.
  - cbn [map fold_left]. unfold keepLow at 2. cbn [lt].
    destruct (Qltb_spec q a) as [H|H].
    + destruct (IH q) as (m & Hm & (z & Hz & Ez) & Hlow).
      exists m. split; [exact Hm|]. split.
      * exists z. split; [right; exact Hz | exact Ez].
      * intros t [<-|Ht]; [|now apply Hlow].
        apply Qle_trans with q; [apply Hlow; now left | lra].
    + apply Qnot_lt_le in H.
      destruct (IH a) as (m & Hm & (z & Hz & Ez) & Hlow).
      exists m. split; [exact Hm|]. split.
      * exists z. split; [|exact Ez].
        destruct Hz as [<-|Hz]; [now left | right; now right].
      * intros t [<-|[<-|Ht]].
        -- apply Hlow; now left.
        -- apply Qle_trans with a; [apply Hlow; now left | exact H].
        -- apply Hlow; now right.
Qed.

Lemma keepHigh_fold (qs : list Q) :
  forall a, exists m,
    fold_left keepHigh (map Fin qs) (Fin a) = Fin m /\ highest m (a :: qs).
Proof.
  induction qs as [|q rest IH]; intro a.
  - exists a. split; [reflexivity|]. split.
    + exists a. split; [now left | reflexivity].
    + intros z [<-|[]]. apply Qle_refl.
  - cbn [map fold_left]. unfold keepHigh at 2. unfold gt. cbn [lt].
    destruct (Qltb_spec a q) as [H|H].
    + destruct (IH q) as (m & Hm & (z & Hz & Ez) & Hhigh).
      exists m. split; [exact Hm|]. split.
      * exists z. split; [right; exact Hz | exact Ez].
      * intros t [<-|Ht]; [|now apply Hhigh].
        apply Qle_trans with q; [lra | apply Hhigh; now left].
    + apply Qnot_lt_le in H.
      destruct (IH a) as (m & Hm & (z & Hz & Ez) & Hhigh).
      exists m. split; [exact Hm|]. split.
      * exists z. split; [|exact Ez].
        destruct Hz as [<-|Hz]; [now left | right; now right].
      * intros t [<-|[<-|Ht]].
        -- apply Hhigh; now left.
        -- apply Qle_trans with a; [exact H | apply Hhigh; now left].
        -- apply Hhigh; now right.
Qed.

Lemma lowest_unique (m m' : Q) (l : list Q) :
  lowest m l -> lowest m' l -> m == m'.
Proof.
  intros [(a & Ha & Ea) L] [(a' & Ha' & Ea') L'].
  apply Qle_antisym.
  - rewrite <- Ea'. now apply L.
  - rewrite <- Ea. now apply L'.
Qed.

Lemma highest_unique (m m' : Q) (l : list Q) :
  highest m l -> highest m' l -> m == m'.
Proof.
  intros [(a & Ha & Ea) L] [(a' & Ha' & Ea') L'].
  apply Qle_antisym.
  - rewrite <- Ea. now apply L'.
  - rewrite <- Ea'. now apply L.
Qed.

Lemma allPtsOf_finite (sd : StateData) :
  Forall (fun p => finitePoint p = true) (allPtsOf sd).
Proof.
  unfold allPtsOf. apply Forall_forall. intros p Hp.
  now apply filter_In in Hp.
Qed.

Lemma finite_coordinates (pts : list StatePoint) :
  Forall (fun p => finitePoint p = true) pts ->
  map x pts = map Fin (xsOf pts) /\ map y pts = map Fin (ysOf pts).
Proof.
  induction 1 as [|p rest Hp _ [IHx IHy]]; [now split|].
  unfold finitePoint in Hp. apply andb_true_iff in Hp as [Hx Hy].
  unfold xsOf, ysOf in *. cbn [map]. rewrite IHx, IHy.
  destruct (x p), (y p); try discriminate. now split.
Qed.

(** The loop over a non-empty cloud of finite points ends on the least and
    greatest coordinates. *)
Lemma cloudBox_spec (pts : list StatePoint) :
  Forall (fun p => finitePoint p = true) pts -> pts <> [] ->
  exists a b c d,
    cloudBox pts = (Fin a, Fin b, Fin c, Fin d)
    /\ lowest a (xsOf pts) /\ lowest b (ysOf pts)
    /\ highest c (xsOf pts) /\ highest d (ysOf pts).
Proof.
  intros Hfin Hne. unfold cloudBox, emptyBox. rewrite cloudBox_from.
  destruct (finite_coordinates pts Hfin) as [-> ->].
  destruct pts as [|p rest]; [congruence|].
  unfold xsOf, ysOf. cbn [map fold_left].
  set (qx := valueOf (x p)). set (qy := valueOf (y p)).
  change (keepLow PInf (Fin qx)) with (Fin qx).
  change (keepLow PInf (Fin qy)) with (Fin qy).
  change (keepHigh NInf (Fin qx)) with (Fin qx).
  change (keepHigh NInf (Fin qy)) with (Fin qy).
  destruct (keepLow_fold (map (fun p => valueOf (x p)) rest) qx) as (a & -> & Ha).
  destruct (keepLow_fold (map (fun p => valueOf (y p)) rest) qy) as (b & -> & Hb).
  destruct (keepHigh_fold (map (fun p => valueOf (x p)) rest) qx) as (c & -> & Hc).
  destruct (keepHigh_fold (map (fun p => valueOf (y p)) rest) qy) as (d & -> & Hd).
  now exists a, b, c, d.
Qed.

Lemma div_Fin (p q : Q) : ~ q == 0 -> div (Fin p) (Fin q) = Fin (p / q).
Proof.
  intro H. cbn. destruct (Qis0_spec q); [contradiction | reflexivity].
Qed.

(** [place] on finite data and a cloud with positive sides. *)
Lemma place_finite (pad : Q) (bb : BBox) (city : StatePoint)
  (bx0 by0 bw bh a b c d cx cy : Q) :
  x0 bb = Fin bx0 -> y0 bb = Fin by0 -> w bb = Fin bw -> h bb = Fin bh ->
  x city = Fin cx -> y city = Fin cy ->
  a < c -> b < d ->
  place (Fin pad) bb (Fin a, Fin b, Fin c, Fin d) city
  = {| px := Fin (alignedX pad bx0 bw bh a b c d cx);
       py := Fin (alignedY pad by0 bw bh a b c d cy) |}.
Proof.
  intros Hx0 Hy0 Hw Hh Hcx Hcy Hac Hbd.
  unfold place. rewrite Hx0, Hy0, Hw, Hh, Hcx, Hcy.
  cbn [sub mul].
  rewrite !div_Fin by lra.
  cbn [Num.min mul sub add].
  rewrite !div_Fin by discriminate.
  reflexivity.
Qed.

Lemma aligned_comp (pad bx0 by0 bw bw' bh bh' a a' b b' c c' d d' cx cy : Q) :
  bw == bw' -> bh == bh' -> a == a' -> b == b' -> c == c' -> d == d' ->
  alignedX pad bx0 bw bh a b c d cx == alignedX pad bx0 bw' bh' a' b' c' d' cx
  /\ alignedY pad by0 bw bh a b c d cy == alignedY pad by0 bw' bh' a' b' c' d' cy.
Proof.
  intros Hw Hh Ha Hb Hc Hd.
  unfold alignedX, alignedY, origin, alignScale.
  rewrite Hw, Hh, Ha, Hb, Hc, Hd. split; reflexivity.
Qed.


(** On finite data and a cloud with positive sides the aligner returns the
    point the specification writes. *)
Lemma alignWith_finite (pad : Q) (bb : BBox) (sd : StateData) (city : StatePoint)
  (bx0 by0 bw bh cx cy dx0 dy0 dx1 dy1 : Q) :
  x0 bb = Fin bx0 -> y0 bb = Fin by0 -> w bb = Fin bw -> h bb = Fin bh ->
  x city = Fin cx -> y city = Fin cy ->
  lowest dx0 (xsOf (allPtsOf sd)) -> lowest dy0 (ysOf (allPtsOf sd)) ->
  highest dx1 (xsOf (allPtsOf sd)) -> highest dy1 (ysOf (allPtsOf sd)) ->
  dx0 < dx1 -> dy0 < dy1 ->
  exists X Y,
    alignWith (Fin pad) sd city (ret bb) = ret {| px := Fin X; py := Fin Y |}
    /\ X == alignedX pad bx0 bw bh dx0 dy0 dx1 dy1 cx
    /\ Y == alignedY pad by0 bw bh dx0 dy0 dx1 dy1 cy.
Proof.
  intros Hx0 Hy0 Hw Hh Hcx Hcy Lx Ly Ux Uy Hdx Hdy.
  assert (Hne : allPtsOf sd <> []).
  { destruct Lx as [(z & Hz & _) _]. intro E. rewrite E in Hz. exact Hz. }
  destruct (cloudBox_spec _ (allPtsOf_finite sd) Hne)
    as (a & b & c & d & Hbox & La & Lb & Uc & Ud).
  pose proof (lowest_unique _ _ _ La Lx) as Ea.
  pose proof (lowest_unique _ _ _ Lb Ly) as Eb.
  pose proof (highest_unique _ _ _ Uc Ux) as Ec.
  pose proof (highest_unique _ _ _ Ud Uy) as Ed.
  unfold alignWith.
  destruct (allPtsOf sd) as [|p0 rest] eqn:Epts; [congruence|].
  cbn [List.length Nat.eqb bind ret]. rewrite Hbox.
  rewrite (place_finite pad bb city bx0 by0 bw bh a b c d cx cy)
    by (assumption || lra).
  eexists _, _. split; [reflexivity|].
  apply aligned_comp; assumption || reflexivity.
Qed.

(** C3: on a target box with finite origin and sides, a finite padding and a
    cloud whose finite points span [dx0..dx1] by [dy0..dy1] with positive
    width and height, a point with finite coordinates [(x, y)] is sent to
    [(ox + (x - dx0) * scale, oy + (y - dy0) * scale)], where
    [scale = min (availW / dw) (availH / dh)], [availW = w * (1 - 2 * pad)],
    [ox = x0 + w * pad + (availW - dw * scale) / 2], and likewise for [oy].
    With the box [x0 = y0 = 0], [w = 100], [h = 50], the padding 0.04 of the
    code and a cloud spanning [0..10] by [0..10], the city at (5, 5) is sent to
    (50, 25). *)
Theorem aligned_point_formula :
  (forall (pad : Q) (bb : BBox) (sd : StateData) (city : StatePoint)
          (bx0 by0 bw bh cx cy dx0 dy0 dx1 dy1 : Q),
     x0 bb = Fin bx0 -> y0 bb = Fin by0 -> w bb = Fin bw -> h bb = Fin bh ->
     x city = Fin cx -> y city = Fin cy ->
     lowest dx0 (xsOf (allPtsOf sd)) -> lowest dy0 (ysOf (allPtsOf sd)) ->
     highest dx1 (xsOf (allPtsOf sd)) -> highest dy1 (ysOf (allPtsOf sd)) ->
     dx0 < dx1 -> dy0 < dy1 ->
     let dw := dx1 - dx0 in
     let dh := dy1 - dy0 in
     let availW := bw * (1 - 2 * pad) in
     let availH := bh * (1 - 2 * pad) in
     let scale := Qmin (availW / dw) (availH / dh) in
     let ox := bx0 + bw * pad + (availW - dw * scale) / 2 in
     let oy := by0 + bh * pad + (availH - dh * scale) / 2 in
     exists X Y,
       alignWith (Fin pad) sd city (ret bb) = ret {| px := Fin X; py := Fin Y |}
       /\ X == ox + (cx - dx0) * scale
       /\ Y == oy + (cy - dy0) * scale)
  /\ (forall (toLowerCase : jsstring -> jsstring) (sd : StateData)
             (topology : Topology) (fips cityName : jsstring)
             (city : StatePoint) (bb : BBox),
        find (fun c => Str.eqb (toLowerCase (name c)) (toLowerCase cityName))
             (cities sd) = Some city ->
        getStateBBoxFromTopology topology fips = ret bb ->
        x0 bb = Fin 0 -> y0 bb = Fin 0 -> w bb = Fin 100 -> h bb = Fin 50 ->
        x city = Fin 5 -> y city = Fin 5 ->
        lowest 0 (xsOf (allPtsOf sd)) -> lowest 0 (ysOf (allPtsOf sd)) ->
        highest 10 (xsOf (allPtsOf sd)) -> highest 10 (ysOf (allPtsOf sd)) ->
        exists X Y,
          getExpectedAlignedCityPoint toLowerCase sd topology fips cityName
          = ret {| px := Fin X; py := Fin Y |}
          /\ X == 50 /\ Y == 25).
Proof.
  split.
  - intros. cbv zeta. eapply alignWith_finite; eassumption.
  - intros lower sd topology fips cityName city bb Hfind Hbb
           Hx0 Hy0 Hw Hh Hcx Hcy Lx Ly Ux Uy.
    unfold getExpectedAlignedCityPoint. rewrite Hfind, Hbb.
    destruct (alignWith_finite (4 # 100) bb sd city 0 0 100 50 5 5 0 0 10 10)
      as (X & Y & Heq & HX & HY); try assumption; try reflexivity.
    exists X, Y. split; [exact Heq|].
    rewrite HX, HY. split; reflexivity.
Qed.

(** Once the city is found, the function is [alignWith] at the padding
    0.04 and at the box of the region. *)
Lemma getExpectedAlignedCityPoint_found
  (toLowerCase : jsstring -> jsstring) (sd : StateData) (topology : Topology)
  (fips cityName : jsstring) (city : StatePoint) :
  find (fun c => Str.eqb (toLowerCase (name c)) (toLowerCase cityName))
       (cities sd) = Some city ->
  getExpectedAlignedCityPoint toLowerCase sd topology fips cityName
  = alignWith (Fin (4 # 100)) sd city (getStateBBoxFromTopology topology fips).
Proof.
  intro H. unfold getExpectedAlignedCityPoint. now rewrite H.
Qed.

(** Least and greatest value of an explicit list. *)
Ltac solve_extreme m :=
  split;
  [ exists m; split; [cbn; auto 10 | reflexivity]
  | let a := fresh "a" in let H := fresh "H" in
    intros a H; cbn in H;
    repeat (destruct H as [<-|H]; [discriminate|]); contradiction ].

Lemma aligned_point_formula_witness :
  exists X Y,
    getExpectedAlignedCityPoint Fixtures.asciiLower Fixtures.squareState
      Fixtures.rectangle (js "39") (js "CENTRE")
    = ret {| px := Fin X; py := Fin Y |}
    /\ X == 50 /\ Y == 25.
Proof.
  apply (proj2 aligned_point_formula Fixtures.asciiLower Fixtures.squareState
           Fixtures.rectangle (js "39") (js "CENTRE")
           (Fixtures.pointAt "Centre" 5 5) Fixtures.targetBox);
    try reflexivity.
  - solve_extreme 0.
  - solve_extreme 0.
  - solve_extreme 10.
  - solve_extreme 10.
Defined.

(** C5, as the code has it: the aligner fails, with the "No points" error,
    whenever the cloud is empty once the points with a non-finite [x] or [y]
    are left out; on a cloud that is not empty it does not fail, whatever the
    cloud's width and height. *)
Theorem empty_cloud_fails
  (toLowerCase : jsstring -> jsstring) (pad : number) (sd : StateData)
  (topology : Topology) (fips cityName : jsstring) (city : StatePoint) :
  (allPtsOf sd = [] ->
     (forall bbr, alignWith pad sd city bbr = throw NoPoints)
     /\ failed (getExpectedAlignedCityPoint toLowerCase sd topology fips cityName)
        = true)
  /\ (allPtsOf sd <> [] ->
      forall bb, failed (alignWith pad sd city (ret bb)) = false).
Proof.
  split.
  - intro Hempty.
    assert (Hall : forall q c bbr, alignWith q sd c bbr = throw NoPoints).
    { intros q c bbr. unfold alignWith. now rewrite Hempty. }
    split; [apply Hall|].
    unfold getExpectedAlignedCityPoint.
    destruct (find _ (cities sd)) as [c|]; [|reflexivity].
    now rewrite Hall.
  - intros Hne bb. unfold alignWith.
    destruct (allPtsOf sd); [congruence | reflexivity].
Qed.

Lemma empty_cloud_fails_witness :
  allPtsOf Fixtures.noPoints = []
  /\ (forall bbr,
        alignWith pad Fixtures.noPoints (Fixtures.pointAt "Nowhere" 0 0) bbr
        = throw NoPoints)
  /\ failed (getExpectedAlignedCityPoint Fixtures.asciiLower Fixtures.noPoints
               Fixtures.rectangle (js "39") (js "nowhere")) = true.
Proof.
  split; [reflexivity|].
  apply (proj1 (empty_cloud_fails Fixtures.asciiLower pad Fixtures.noPoints
                  Fixtures.rectangle (js "39") (js "nowhere")
                  (Fixtures.pointAt "Nowhere" 0 0))).
  reflexivity.
Defined.

(** C5 as stated fails: the cloud of [columnState] has width zero, and the
    call returns the point (50, 2) instead of failing. *)
Lemma zero_width_not_an_error :
  (exists dx dy0 dy1,
      cloudBox (allPtsOf Fixtures.columnState) = (Fin dx, Fin dy0, Fin dx, Fin dy1)
      /\ dx - dx == 0)
  /\ failed (getExpectedAlignedCityPoint Fixtures.asciiLower Fixtures.columnState
               Fixtures.rectangle (js "39") (js "lower")) = false
  /\ exists P,
       getExpectedAlignedCityPoint Fixtures.asciiLower Fixtures.columnState
         Fixtures.rectangle (js "39") (js "lower") = ret P
       /\ same (px P) (Fin 50) /\ same (py P) (Fin 2).
Proof.
  split; [exists 3, 0, 10; split; reflexivity|].
  split; [reflexivity|].
  eexists. split; [vm_compute; reflexivity|]. split; reflexivity.
Qed.



End AlignerFacts.

(** ** extractLocationLabel *)

Section LabelFacts.

Import Spec.

Lemma truthy_trimmed_present (f : option jsstring) :
  truthy (trimmed f) = true -> present f = true.
Proof.
  destruct f as [[|c s]|]; cbn; try discriminate; reflexivity.
Qed.

Lemma present_and_filled (f : option jsstring) :
  present f && truthy (trimmed f) = filled f.
Proof.
  unfold filled. destruct (truthy (trimmed f)) eqn:E.
  - now rewrite (truthy_trimmed_present f E).
  - apply andb_false_r.
Qed.

(** The head of a list sorted by a decreasing key is a greatest element. *)
Lemma sort_head_max {A : Type} (key : A -> Q) (l : list A) :
  match sort (fun a b => key b - key a) l with
  | [] => l = []
  | c :: _ => In c l /\ forall e, In e l -> key e <= key c
  end.
Proof.
  induction l as [|a rest IH]; [reflexivity|].
  cbn [sort fold_right]. fold (sort (fun a b => key b - key a) rest).
  destruct (sort (fun a b => key b - key a) rest) as [|c r].
  - subst rest. cbn. split; [now left|]. intros e [<-|[]]. apply Qle_refl.
  - destruct IH as [Hc Hmax]. cbn [insert].
    destruct (Qle_bool_spec (key c - key a) 0) as [H|H].
    + split; [now left|]. intros e [<-|He]; [apply Qle_refl|].
      apply Qle_trans with (key c); [now apply Hmax | lra].
    + split; [now right|]. intros e [<-|He]; [lra | now apply Hmax].
Qed.

Lemma qualifies_eligible (e : Entry) :
  InformativeFirst.qualifies e = true <-> eligible e.
Proof.
  unfold InformativeFirst.qualifies, eligible, atLeast.
  rewrite !andb_true_iff, negb_true_iff. split.
  - intros [[Ho Hn] Ha]. repeat split; try assumption.
    + destruct (order e) as [o|]; [|discriminate].
      exists o. split; [reflexivity | now apply Qle_bool_iff].
    + intro E. rewrite E in Hn. discriminate.
  - intros [(o & -> & Ho) [Hn Ha]]. repeat split; try assumption.
    + now apply Qle_bool_iff.
    + destruct (Geo.name e); [congruence | reflexivity].
Qed.

(** Step 1 returns the name of an eligible entry of highest order. *)
Lemma candidates_head (l : list Entry) :
  match InformativeFirst.candidates l with
  | [] => forall e, In e l -> ~ eligible e
  | c :: _ =>
      In c l /\ eligible c
      /\ forall e, In e l -> eligible e -> orZero (order e) <= orZero (order c)
  end.
Proof.
  unfold InformativeFirst.candidates, InformativeFirst.byOrderDesc.
  pose proof (sort_head_max (fun e => orZero (order e))
                (filter InformativeFirst.qualifies l)) as H.
  destruct (sort _ (filter InformativeFirst.qualifies l)) as [|c r].
  - intros e He Hel. apply qualifies_eligible in Hel.
    assert (Hin : In e (filter InformativeFirst.qualifies l))
      by (apply filter_In; now split).
    rewrite H in Hin. exact Hin.
  - destruct H as [Hc Hmax]. apply filter_In in Hc as [Hc Hq].
    split; [exact Hc|]. split; [now apply qualifies_eligible|].
    intros e He Hel. apply Hmax. apply filter_In. split; [exact He|].
    now apply qualifies_eligible.
Qed.

(** Steps 2 to 4, on the fields that are filled. *)
Lemma fallback_cascade (geo : BigDataCloudResponse) :
  InformativeFirst.fallback geo =
  if filled (city geo) then trimmed (city geo)
  else if filled (locality geo)
          && negb (ADMIN_PATTERN_test (trimmed (locality geo)))
       then trimmed (locality geo)
  else if filled (principalSubdivision geo)
       then trimmed (principalSubdivision geo)
  else [].
Proof.
  unfold InformativeFirst.fallback. now rewrite !present_and_filled.
Qed.

(** C1, as the code has it (the informative-first variant): when some entry
    of [localityInfo.informative] has an order of at least 4 and a non-empty
    name that, once trimmed, does not match the administrative pattern, the
    label is the name of such an entry with the highest order; otherwise it is
    the trimmed city when that is not empty; otherwise the trimmed locality
    when that is not empty and does not match the administrative pattern;
    otherwise the trimmed principalSubdivision when that is not empty;
    otherwise the empty string.  The input with locality "Township of
    Madison" and the informative entry "Canal Winchester" of order 5 gives
    "Canal Winchester". *)
Theorem informative_first_precedence (geo : BigDataCloudResponse) :
  let l := match informativeOf geo with Some l => l | None => [] end in
  let label := InformativeFirst.extractLocationLabel geo in
  ((exists e, In e l /\ eligible e) ->
     exists c, In c l /\ eligible c
       /\ (forall e, In e l -> eligible e ->
             orZero (order e) <= orZero (order c))
       /\ label = Geo.name c)
  /\ ((forall e, In e l -> ~ eligible e) ->
       label =
       if filled (city geo) then trimmed (city geo)
       else if filled (locality geo)
               && negb (ADMIN_PATTERN_test (trimmed (locality geo)))
            then trimmed (locality geo)
       else if filled (principalSubdivision geo)
            then trimmed (principalSubdivision geo)
       else [])
  /\ InformativeFirst.extractLocationLabel Fixtures.madisonInput
     = js "Canal Winchester".
Proof.
  cbv zeta. unfold InformativeFirst.extractLocationLabel.
  split; [|split]; [| |reflexivity].
  - intros (e & He & Hel).
    destruct (informativeOf geo) as [l|]; [|destruct He].
    pose proof (candidates_head l) as H.
    destruct (InformativeFirst.candidates l) as [|c r].
    + exfalso. exact (H e He Hel).
    + destruct H as (Hc & Hq & Hmax). exists c.
      split; [exact Hc|]. split; [exact Hq|]. split; [exact Hmax | reflexivity].
  - intros Hnone. rewrite <- fallback_cascade.
    destruct (informativeOf geo) as [l|]; [|reflexivity].
    pose proof (candidates_head l) as H.
    destruct (InformativeFirst.candidates l) as [|c r]; [reflexivity|].
    destruct H as (Hc & Hq & _). exfalso. exact (Hnone c Hc Hq).
Qed.

Lemma informative_first_precedence_witness :
  exists c,
    In c [Fixtures.entry "Canal Winchester" 5]
    /\ eligible c
    /\ (forall e, In e [Fixtures.entry "Canal Winchester" 5] -> eligible e ->
          orZero (order e) <= orZero (order c))
    /\ InformativeFirst.extractLocationLabel Fixtures.madisonInput = Geo.name c.
Proof.
  apply (proj1 (informative_first_precedence Fixtures.madisonInput)).
  exists (Fixtures.entry "Canal Winchester" 5).
  split; [now left|]. split; [|split; [discriminate | reflexivity]].
  exists 5. split; [reflexivity | discriminate].
Defined.

(** C1 as stated fails.  In the informative-first variant the only
    informative entry of [namelessInput] has order 5 and a name, the empty
    string, that does not match the administrative pattern, and yet the label
    is the city and not the name of that entry.  The locality-first variant
    does not follow the order of C1 at all: on the input of C1, locality
    "Township of Madison" with the informative entry "Canal Winchester" of
    order 5, it returns the empty string. *)
Lemma informative_precedence_fails :
  let e0 := Fixtures.entry "" 5 in
  (informativeOf Fixtures.namelessInput = Some [e0]
   /\ atLeast (order e0) 4 = true
   /\ ADMIN_PATTERN_test (Geo.name e0) = false
   /\ InformativeFirst.extractLocationLabel Fixtures.namelessInput
      = js "Columbus"
   /\ InformativeFirst.extractLocationLabel Fixtures.namelessInput
      <> Geo.name e0)
  /\ (LocalityFirst.extractLocationLabel Fixtures.madisonInput = []
      /\ LocalityFirst.extractLocationLabel Fixtures.madisonInput
         <> js "Canal Winchester").
Proof.
  cbv zeta. repeat apply conj; try reflexivity; discriminate.
Qed.

(** C2: on the Canal Winchester answer of the geocoder the informative-first
    variant returns the FIPS code "39-045-80206", the informative entry of
    highest order, and not "Canal Winchester". *)
Theorem informative_first_returns_fips_code :
  InformativeFirst.extractLocationLabel Fixtures.canalWinchesterFixture
  = js "39-045-80206"
  /\ InformativeFirst.extractLocationLabel Fixtures.canalWinchesterFixture
     <> js "Canal Winchester".
Proof. split; [reflexivity | discriminate]. Qed.

(** The locality-first variant returns "Canal Winchester" there. *)
Lemma locality_first_on_fixture :
  LocalityFirst.extractLocationLabel Fixtures.canalWinchesterFixture
  = js "Canal Winchester".
Proof. reflexivity. Qed.

(** The locality-first variant never reads [localityInfo.informative]. *)
Lemma locality_first_ignores_informative
  (geo : BigDataCloudResponse) (inf : option (list Entry)) :
  LocalityFirst.extractLocationLabel (withInformative geo inf)
  = LocalityFirst.extractLocationLabel geo.
Proof.
  unfold LocalityFirst.extractLocationLabel, LocalityFirst.fromAdministrative,
    LocalityFirst.lastResort, administrativeOf, withInformative.
  cbn [city locality principalSubdivision localityInfo].
  destruct (localityInfo geo) as [li|]; reflexivity.
Qed.

End LabelFacts.

(** ** The unit tests of the repository, replayed on the embedding *)

Section UnitTests.

Import Fixtures Fractionizer.
Local Open Scope string_scope.

(** [landing-helpers.test.ts], written for the informative-first variant. *)

Example informative_first_single_entry :
  InformativeFirst.extractLocationLabel
    (response (Some "") (Some "Township of Madison") (Some "Ohio") None
       (Some [entry "Canal Winchester" 5]))
  = js "Canal Winchester".
Proof. reflexivity. Qed.

Example informative_first_filters_township :
  InformativeFirst.extractLocationLabel
    (response (Some "") (Some "Township of Madison") (Some "Ohio") None
       (Some [entry "Township of Madison" 4; entry "Canal Winchester" 5]))
  = js "Canal Winchester".
Proof. reflexivity. Qed.

Example informative_first_city_fallback :
  InformativeFirst.extractLocationLabel
    (response (Some "Columbus") (Some "Township of Franklin") (Some "Ohio")
       None (Some []))
  = js "Columbus".
Proof. reflexivity. Qed.

Example informative_first_locality_fallback :
  InformativeFirst.extractLocationLabel
    (response (Some "") (Some "Springfield") (Some "Ohio") None (Some []))
  = js "Springfield".
Proof. reflexivity. Qed.

Example informative_first_skips_admin_locality :
  InformativeFirst.extractLocationLabel
    (response (Some "") (Some "Township of Madison") (Some "Ohio") None
       (Some []))
  = js "Ohio"
  /\ InformativeFirst.extractLocationLabel
       (response (Some "") (Some "County of Los Angeles") (Some "California")
          None (Some []))
     = js "California".
Proof. split; reflexivity. Qed.

Example informative_first_last_resort :
  InformativeFirst.extractLocationLabel
    (response None None (Some "Ohio") None None) = js "Ohio"
  /\ InformativeFirst.extractLocationLabel (response None None None None None)
     = js "".
Proof. split; reflexivity. Qed.

Example informative_first_highest_order :
  InformativeFirst.extractLocationLabel
    (response (Some "") (Some "") (Some "Ohio") None
       (Some [entry "Franklin County" 4; entry "Canal Winchester" 6;
              entry "Groveport" 5]))
  = js "Canal Winchester".
Proof. reflexivity. Qed.

(** The tests written for the locality-first variant. *)

Example locality_first_city_when_locality_admin :
  LocalityFirst.extractLocationLabel
    (response (Some "Columbus") (Some "Township of Franklin") (Some "Ohio")
       None None)
  = js "Columbus".
Proof. reflexivity. Qed.

Example locality_first_administrative :
  LocalityFirst.extractLocationLabel
    (response (Some "Township of Madison") (Some "Township of Violet")
       (Some "Ohio") (Some [admin "Canal Winchester" 12 8]) None)
  = js "Canal Winchester".
Proof. reflexivity. Qed.

Example locality_first_last_resort :
  LocalityFirst.extractLocationLabel
    (response (Some "") (Some "") (Some "Ohio") None (Some [])) = js "Ohio"
  /\ LocalityFirst.extractLocationLabel (response None None None None None)
     = js ""
  /\ LocalityFirst.extractLocationLabel
       (response (Some "") (Some "County of Los Angeles") (Some "California")
          None None)
     = js "California".
Proof. repeat split. Qed.

Example locality_first_plain_locality :
  LocalityFirst.extractLocationLabel
    (response (Some "Township of Something") (Some "Springfield") (Some "Ohio")
       None None)
  = js "Springfield".
Proof. reflexivity. Qed.

(** The tests of [proficiencyToFraction]. *)

Example fraction_tests :
  proficiencyToFraction (615 # 1000) = {| numerator := 4; denominator := 10 |}
  /\ proficiencyToFraction (5 # 10) = {| numerator := 5; denominator := 10 |}
  /\ proficiencyToFraction (75 # 100) = {| numerator := 1; denominator := 4 |}
  /\ proficiencyToFraction (2 # 10) = {| numerator := 8; denominator := 10 |}
  /\ (1 <= numerator (proficiencyToFraction (99 # 100)))%Z
  /\ (numerator (proficiencyToFraction (1 # 100))
      < denominator (proficiencyToFraction (1 # 100)))%Z
  /\ numerator (proficiencyToFraction 0)
     = (denominator (proficiencyToFraction 0) - 1)%Z
  /\ numerator (proficiencyToFraction 1) = 1%Z.
Proof. repeat apply conj; vm_compute; easy. Qed.

(** The pattern asks for a whole leading word. *)
Example admin_pattern_samples :
  map ADMIN_PATTERN_test
      (map js ["Township of Madison"; "township"; "COUNTY of X";
               "District-9"; "Townships"; "division_x"; "Franklin County";
               "Canal Winchester"; ""])
  = [true; true; true; true; false; false; false; false; false].
Proof. reflexivity. Qed.

End UnitTests.

(** ** More on getStateBBoxFromTopology: rings, failures, the box *)

Section RingFacts.

Import Spec MapSpec.

Lemma ringFrom_step (decoded : list Coords) (coords : Coords) (i : Z)
  (rest : list Z) :
  ringFrom decoded coords (i :: rest)
  = bind (resolveArc decoded i)
         (fun arc => ringFrom decoded (pushArc coords arc) rest).
Proof.
  cbn [ringFrom]. unfold resolveArc. destruct (0 <=? i)%Z; reflexivity.
Qed.

(** [ring] pushes the resolved arcs one after the other, and fails as soon
    as one index does not resolve. *)
Lemma ringFrom_mapM (decoded : list Coords) (idx : list Z) :
  forall coords,
  ringFrom decoded coords idx
  = bind (mapM (resolveArc decoded) idx)
         (fun arcs => ret (fold_left pushArc arcs coords)).
Proof.
  induction idx as [|i rest IH]; intro coords; [reflexivity|].
  rewrite ringFrom_step. cbn [mapM].
  destruct (resolveArc decoded i) as [e|arc]; [reflexivity|].
  cbn [bind]. rewrite IH.
  destruct (mapM (resolveArc decoded) rest); reflexivity.
Qed.

Lemma pushArc_nonempty (coords arc : Coords) :
  coords <> [] -> pushArc coords arc = coords ++ tl arc.
Proof.
  intro H. destruct arc as [|p rest]; cbn; [now rewrite app_nil_r|].
  destruct coords; [congruence | reflexivity].
Qed.

Lemma fold_pushArc_nonempty (arcs : list Coords) :
  forall coords, coords <> [] ->
  fold_left pushArc arcs coords = coords ++ concat (map (@tl _) arcs).
Proof.
  induction arcs as [|a rest IH]; intros coords H; cbn.
  - now rewrite app_nil_r.
  - rewrite pushArc_nonempty by exact H. rewrite IH.
    + now rewrite app_assoc.
    + destruct coords; [congruence | discriminate].
Qed.

Lemma toInt32_small (i : Z) :
  (- 2 ^ 31 <= i < 2 ^ 31)%Z -> toInt32 i = i.
Proof.
  intro H. unfold toInt32. rewrite Z.mod_small; lia.
Qed.

Lemma bitNot_small (i : Z) :
  (- 2 ^ 31 <= i < 2 ^ 31)%Z -> bitNot i = (- i - 1)%Z.
Proof.
  intro H. unfold bitNot. rewrite toInt32_small by exact H.
  unfold Z.lnot. lia.
Qed.

(** X1: for an arc index [i] of the 31-bit range that is in [decoded], the
    complement [~i] is negative and complementing it again gives [i] back;
    the ring of the single index [i] is the decoded arc, and the ring of
    [~i] is the same arc in reverse order. *)
Theorem complemented_index_reverses
  (decoded : list Coords) (i : Z) (arc : Coords) :
  (0 <= i < 2 ^ 31)%Z ->
  nth_error decoded (Z.to_nat i) = Some arc ->
  (bitNot i < 0)%Z
  /\ bitNot (bitNot i) = i
  /\ ring decoded [i] = ret arc
  /\ ring decoded [bitNot i] = ret (rev arc).
Proof.
  intros Hi Hnth.
  assert (Hn : bitNot i = (- i - 1)%Z) by (apply bitNot_small; lia).
  assert (Hnn : bitNot (bitNot i) = i).
  { rewrite Hn. rewrite bitNot_small by lia. lia. }
  assert (Hat : arcAt decoded i = ret arc).
  { unfold arcAt. destruct (Z.ltb_spec i 0) as [H|H]; [lia|]. now rewrite Hnth. }
  assert (Hpush : forall a : Coords, pushArc [] a = a)
    by (intros [|p r]; reflexivity).
  split; [lia|]. split; [exact Hnn|]. split.
  - unfold ring. rewrite ringFrom_step. unfold resolveArc.
    destruct (Z.leb_spec 0 i) as [H|H]; [|lia].
    rewrite Hat. cbn. now rewrite Hpush.
  - unfold ring. rewrite ringFrom_step. unfold resolveArc.
    destruct (Z.leb_spec 0 (bitNot i)) as [H|H]; [lia|].
    rewrite Hnn, Hat. cbn. now rewrite Hpush.
Qed.

Lemma complemented_index_reverses_witness :
  (bitNot 0 < 0)%Z
  /\ bitNot (bitNot 0) = 0%Z
  /\ ring (decode Fixtures.rectangle) [0%Z]
     = ret MoreFixtures.rectangleArc
  /\ ring (decode Fixtures.rectangle) [bitNot 0]
     = ret (rev MoreFixtures.rectangleArc).
Proof.
  apply (complemented_index_reverses (decode Fixtures.rectangle) 0
           MoreFixtures.rectangleArc).
  - split; [discriminate | reflexivity].
  - reflexivity.
Defined.

(** X2: when every index of a ring resolves and the first resolved arc is
    not empty, the ring is that arc followed by every later arc without its
    first point (the shared end point is kept once). *)
Theorem ring_joins_arcs
  (decoded : list Coords) (idx : list Z) (first : Coords) (others : list Coords) :
  mapM (resolveArc decoded) idx = ret (first :: others) ->
  first <> [] ->
  ring decoded idx = ret (first ++ concat (map (@tl _) others))
  /\ List.length (first ++ concat (map (@tl _) others))
     = (List.length first
        + list_sum (map (fun a => Nat.pred (List.length a)) others))%nat.
Proof.
  intros Hm Hne. unfold ring. rewrite ringFrom_mapM, Hm.
  cbn [bind ret fold_left].
  assert (Hp : pushArc [] first = first)
    by (destruct first; [congruence | reflexivity]).
  rewrite Hp, fold_pushArc_nonempty by exact Hne.
  split; [reflexivity|].
  rewrite length_app. f_equal.
  clear. induction others as [|a rest IH]; [reflexivity|].
  cbn [map concat list_sum]. rewrite length_app, IH.
  destruct a; reflexivity.
Qed.

Lemma ring_joins_arcs_witness :
  ring (decode Fixtures.rectangle) [0%Z; bitNot 0]
  = ret (MoreFixtures.rectangleArc
         ++ concat (map (@tl _)
                        [rev MoreFixtures.rectangleArc]))
  /\ List.length
       (MoreFixtures.rectangleArc
        ++ concat (map (@tl _)
                       [rev MoreFixtures.rectangleArc]))
     = (List.length MoreFixtures.rectangleArc
        + list_sum (map (fun a : Coords => Nat.pred (List.length a))
                        [rev MoreFixtures.rectangleArc]))%nat.
Proof.
  apply (ring_joins_arcs (decode Fixtures.rectangle) [0%Z; bitNot 0]
           MoreFixtures.rectangleArc
           [rev MoreFixtures.rectangleArc]).
  - reflexivity.
  - discriminate.
Defined.

End RingFacts.

Section BBoxFacts.

Import Spec MapSpec.

Lemma mapM_failed {A B : Type} (f : A -> result B) (l : list A) :
  failed (mapM f l) = existsb (fun a => failed (f a)) l.
Proof.
  induction l as [|a rest IH]; [reflexivity|].
  cbn [mapM existsb]. destruct (f a) as [e|b]; [reflexivity|].
  cbn [bind failed orb]. rewrite <- IH.
  destruct (mapM f rest); reflexivity.
Qed.

Lemma mapM_error {A B : Type} (f : A -> result B) (E : error) (l : list A) :
  (forall a e, f a = inl e -> e = E) ->
  forall e, mapM f l = inl e -> e = E.
Proof.
  intros Hf. induction l as [|a rest IH]; intros e H; [discriminate|].
  cbn [mapM] in H. destruct (f a) as [e'|b] eqn:Ea.
  - cbn in H. injection H as <-. now apply (Hf a).
  - cbn [bind] in H. destruct (mapM f rest) as [e'|bs]; [|discriminate].
    cbn in H. injection H as <-. now apply IH.
Qed.

Lemma arcAt_error (decoded : list Coords) (i : Z) (e : error) :
  arcAt decoded i = inl e -> e = TypeError.
Proof.
  unfold arcAt. destruct (i <? 0)%Z; [intro H; now injection H|].
  destruct (nth_error decoded (Z.to_nat i)); [discriminate|].
  intro H; now injection H.
Qed.

Lemma resolveArc_error (decoded : list Coords) (i : Z) (e : error) :
  resolveArc decoded i = inl e -> e = TypeError.
Proof.
  unfold resolveArc. destruct (0 <=? i)%Z; [apply arcAt_error|].
  destruct (arcAt decoded (bitNot i)) eqn:E; [|discriminate].
  cbn. intro H. injection H as <-. now apply arcAt_error in E.
Qed.

(** An index resolves exactly when its arc is one of [decoded]. *)
Lemma resolveArc_failed (decoded : list Coords) (i : Z) :
  failed (resolveArc decoded i) = false
  <-> (0 <= arcId i < Z.of_nat (List.length decoded))%Z.
Proof.
  assert (Hat : forall j, failed (arcAt decoded j) = false
                          <-> (0 <= j < Z.of_nat (List.length decoded))%Z).
  { intro j. unfold arcAt. destruct (Z.ltb_spec j 0) as [H|H].
    - cbn. split; [discriminate | lia].
    - destruct (nth_error decoded (Z.to_nat j)) eqn:E; cbn.
      + split; [intros _|reflexivity].
        assert (Hl : (Z.to_nat j < List.length decoded)%nat)
          by (apply nth_error_Some; congruence).
        lia.
      + apply nth_error_None in E. split; [discriminate | lia]. }
  unfold resolveArc, arcId. destruct (0 <=? i)%Z; [apply Hat|].
  rewrite <- Hat. destruct (arcAt decoded (bitNot i)); reflexivity.
Qed.

Lemma ring_failed (decoded : list Coords) (idx : list Z) :
  failed (ring decoded idx)
  = existsb (fun i => failed (resolveArc decoded i)) idx.
Proof.
  unfold ring. rewrite ringFrom_mapM, <- mapM_failed.
  destruct (mapM (resolveArc decoded) idx); reflexivity.
Qed.

Lemma ring_error (decoded : list Coords) (idx : list Z) (e : error) :
  ring decoded idx = inl e -> e = TypeError.
Proof.
  unfold ring. rewrite ringFrom_mapM.
  destruct (mapM (resolveArc decoded) idx) as [e'|arcs] eqn:E; [|discriminate].
  cbn. intro H. injection H as <-.
  exact (mapM_error _ TypeError idx (resolveArc_error decoded) _ E).
Qed.

Lemma existsb_concat {A : Type} (f : A -> bool) (ls : list (list A)) :
  existsb f (concat ls) = existsb (existsb f) ls.
Proof.
  induction ls as [|l rest IH]; [reflexivity|].
  cbn. now rewrite existsb_app, IH.
Qed.

Lemma existsb_pointwise {A : Type} (f g : A -> bool) (l : list A) :
  (forall a, f a = g a) -> existsb f l = existsb g l.
Proof.
  intro H. induction l as [|a rest IH]; [reflexivity|].
  cbn. now rewrite H, IH.
Qed.

Lemma polysOf_failed (decoded : list Coords) (s : Shape) :
  failed (polysOf decoded s)
  = existsb (fun i => failed (resolveArc decoded i)) (indicesOf s).
Proof.
  destruct s as [rings|polygons]; cbn [polysOf indicesOf].
  - rewrite existsb_concat.
    transitivity (failed (mapM (ring decoded) rings)).
    + destruct (mapM (ring decoded) rings); reflexivity.
    + rewrite mapM_failed. apply existsb_pointwise. intro r. apply ring_failed.
  - rewrite !existsb_concat, mapM_failed.
    apply existsb_pointwise. intro a. rewrite mapM_failed.
    apply existsb_pointwise. intro r. apply ring_failed.
Qed.

Lemma polysOf_error (decoded : list Coords) (s : Shape) (e : error) :
  polysOf decoded s = inl e -> e = TypeError.
Proof.
  destruct s as [rings|polygons]; cbn [polysOf].
  - destruct (mapM (ring decoded) rings) as [e'|r] eqn:E; [|discriminate].
    cbn. intro H. injection H as <-.
    exact (mapM_error _ TypeError rings (ring_error decoded) _ E).
  - apply mapM_error. intros a e'. apply mapM_error. apply ring_error.
Qed.

Lemma decode_length (topology : Topology) :
  List.length (decode topology) = List.length (arcs topology).
Proof. unfold decode. apply length_map. Qed.

(** X3: [getStateBBoxFromTopology] fails in two cases only.  When no
    geometry has the requested id it throws the "Missing geometry" error.
    When the geometry is there, it fails, with a [TypeError], exactly when one
    of its arc indices refers to an arc ([i], or [~i] for a negative [i])
    that is not in the topology. *)
Theorem bbox_failures (topology : Topology) (fips : jsstring) :
  (find (fun g => Str.eqb (id g) fips) (geometries topology) = None ->
     getStateBBoxFromTopology topology fips = throw MissingGeometry)
  /\ (forall geom,
        find (fun g => Str.eqb (id g) fips) (geometries topology) = Some geom ->
        ((exists i, In i (indicesOf (shape geom))
                    /\ ~ (0 <= arcId i < Z.of_nat (List.length (arcs topology)))%Z)
           -> getStateBBoxFromTopology topology fips = throw TypeError)
        /\ ((forall i, In i (indicesOf (shape geom)) ->
               (0 <= arcId i < Z.of_nat (List.length (arcs topology)))%Z)
           -> failed (getStateBBoxFromTopology topology fips) = false)).
Proof.
  unfold getStateBBoxFromTopology. split.
  - intros ->. reflexivity.
  - intros geom ->.
    pose proof (polysOf_failed (decode topology) (shape geom)) as Hf.
    pose proof (polysOf_error (decode topology) (shape geom)) as He.
    split.
    + intros (i & Hin & Hout).
      destruct (polysOf (decode topology) (shape geom)) as [e|polys].
      * cbn. now rewrite (He e eq_refl).
      * exfalso. cbn [failed] in Hf. symmetry in Hf.
        assert (Hall : forall j, In j (indicesOf (shape geom)) ->
                         failed (resolveArc (decode topology) j) = false).
        { intros j Hj. destruct (failed (resolveArc (decode topology) j)) eqn:E;
            [|reflexivity].
          assert (Hex : existsb (fun i => failed (resolveArc (decode topology) i))
                          (indicesOf (shape geom)) = true)
            by (apply existsb_exists; now exists j).
          congruence. }
        apply Hout. rewrite <- decode_length. apply resolveArc_failed.
        now apply Hall.
    + intros Hall.
      destruct (polysOf (decode topology) (shape geom)) as [e|polys];
        [|reflexivity].
      exfalso. cbn [failed] in Hf. symmetry in Hf.
      apply existsb_exists in Hf as (i & Hin & Hi).
      specialize (Hall i Hin). rewrite <- decode_length in Hall.
      apply resolveArc_failed in Hall. congruence.
Qed.

Lemma bbox_failures_witness :
  getStateBBoxFromTopology Fixtures.rectangle (js "06") = throw MissingGeometry.
Proof.
  apply (proj1 (bbox_failures Fixtures.rectangle (js "06"))). reflexivity.
Defined.

Lemma fold_left_concat {A B : Type} (f : A -> B -> A) (ls : list (list B)) :
  forall a, fold_left (fun acc l => fold_left f l acc) ls a
            = fold_left f (concat ls) a.
Proof.
  induction ls as [|l rest IH]; intro a; [reflexivity|].
  cbn. now rewrite fold_left_app, IH.
Qed.

Lemma boxOf_points (polys : list (list Coords)) :
  boxOf polys
  = fold_left (fun a p => grow a (Fin (fst p)) (Fin (snd p)))
              (pointsOf polys) emptyBox.
Proof.
  unfold boxOf, pointsOf.
  change (fold_left growPoly polys emptyBox)
    with (fold_left (fun acc l => fold_left growRing l acc) polys emptyBox).
  rewrite fold_left_concat.
  exact (fold_left_concat
           (fun a p => grow a (Fin (fst p)) (Fin (snd p)))
           (concat polys) emptyBox).
Qed.

Lemma grow_pairs_from (pts : Coords) :
  forall a b c d,
  fold_left (fun acc p => grow acc (Fin (fst p)) (Fin (snd p))) pts (a, b, c, d)
  = (fold_left keepLow (map Fin (map fst pts)) a,
     fold_left keepLow (map Fin (map snd pts)) b,
     fold_left keepHigh (map Fin (map fst pts)) c,
     fold_left keepHigh (map Fin (map snd pts)) d).
Proof.
  induction pts as [|p rest IH]; intros a b c d; [reflexivity|].
  cbn [fold_left map]. rewrite grow_split. apply IH.
Qed.

(** X4: when the region is found, its rings resolve and they have at least
    one point, the returned box is finite: [x0] and [x1] are the least and
    greatest x of the points of the rings, [y0] and [y1] the least and
    greatest y, so that every point lies in the box, [x0 <= x1], [y0 <= y1],
    and [w = x1 - x0], [h = y1 - y0] are not negative. *)
Theorem bbox_is_tight
  (topology : Topology) (fips : jsstring) (geom : Geometry)
  (polys : list (list Coords)) :
  find (fun g => Str.eqb (id g) fips) (geometries topology) = Some geom ->
  polysOf (decode topology) (shape geom) = ret polys ->
  pointsOf polys <> [] ->
  exists a b c d,
    getStateBBoxFromTopology topology fips
    = ret {| x0 := Fin a; y0 := Fin b; x1 := Fin c; y1 := Fin d;
             w := Fin (c - a); h := Fin (d - b) |}
    /\ lowest a (map fst (pointsOf polys))
    /\ highest c (map fst (pointsOf polys))
    /\ lowest b (map snd (pointsOf polys))
    /\ highest d (map snd (pointsOf polys))
    /\ (forall p, In p (pointsOf polys) ->
          a <= fst p <= c /\ b <= snd p <= d)
    /\ a <= c /\ b <= d.
Proof.
  intros Hfind Hpolys Hne.
  unfold getStateBBoxFromTopology. rewrite Hfind, Hpolys. cbn [bind ret].
  rewrite boxOf_points. unfold emptyBox. rewrite grow_pairs_from.
  destruct (pointsOf polys) as [|p rest] eqn:Epts; [congruence|].
  cbn [map fold_left].
  change (keepLow PInf (Fin (fst p))) with (Fin (fst p)).
  change (keepLow PInf (Fin (snd p))) with (Fin (snd p)).
  change (keepHigh NInf (Fin (fst p))) with (Fin (fst p)).
  change (keepHigh NInf (Fin (snd p))) with (Fin (snd p)).
  destruct (keepLow_fold (map fst rest) (fst p)) as (a & -> & Ha).
  destruct (keepLow_fold (map snd rest) (snd p)) as (b & -> & Hb).
  destruct (keepHigh_fold (map fst rest) (fst p)) as (c & -> & Hc).
  destruct (keepHigh_fold (map snd rest) (snd p)) as (d & -> & Hd).
  exists a, b, c, d. split; [reflexivity|].
  repeat (split; [assumption|]).
  assert (Hin : forall q, In q (p :: rest) ->
                  a <= fst q <= c /\ b <= snd q <= d).
  { intros q Hq.
    assert (Hx : In (fst q) (fst p :: map fst rest))
      by (apply (in_map fst (p :: rest)); exact Hq).
    assert (Hy : In (snd q) (snd p :: map snd rest))
      by (apply (in_map snd (p :: rest)); exact Hq).
    destruct Ha as [_ Ha], Hb as [_ Hb], Hc as [_ Hc], Hd as [_ Hd].
    repeat split; auto. }
  split; [exact Hin|].
  destruct (Hin p (or_introl eq_refl)) as [[? ?] [? ?]].
  split; eapply Qle_trans; eassumption.
Qed.

Lemma bbox_is_tight_witness :
  exists a b c d,
    getStateBBoxFromTopology Fixtures.rectangle (js "39")
    = ret {| x0 := Fin a; y0 := Fin b; x1 := Fin c; y1 := Fin d;
             w := Fin (c - a); h := Fin (d - b) |}
    /\ lowest a (map fst (pointsOf [[MoreFixtures.rectangleArc]]))
    /\ highest c (map fst (pointsOf [[MoreFixtures.rectangleArc]]))
    /\ lowest b (map snd (pointsOf [[MoreFixtures.rectangleArc]]))
    /\ highest d (map snd (pointsOf [[MoreFixtures.rectangleArc]]))
    /\ (forall p, In p (pointsOf [[MoreFixtures.rectangleArc]]) ->
          a <= fst p <= c /\ b <= snd p <= d)
    /\ a <= c /\ b <= d.
Proof.
  apply (bbox_is_tight Fixtures.rectangle (js "39")
           {| id := js "39"; shape := Polygon [ [0%Z] ] |}
           [[MoreFixtures.rectangleArc]]).
  - reflexivity.
  - reflexivity.
  - discriminate.
Defined.

End BBoxFacts.

(** ** More on getExpectedAlignedCityPoint: where the points land *)

Section AlignerGeometry.

Import Spec MapSpec Aligner.

(** Least and greatest value of an explicit list. *)
Ltac extreme_of m :=
  split;
  [ exists m; split; [cbn; auto 10 | reflexivity]
  | let a := fresh "a" in let H := fresh "H" in
    intros a H; cbn in H;
    repeat (destruct H as [<-|H]; [discriminate|]); contradiction ].

(** The scale is not negative, and the scaled cloud is not larger than the
    padded area. *)
Lemma alignScale_fits (pad bw bh dx0 dy0 dx1 dy1 : Q) :
  0 <= bw -> 0 <= bh -> 0 <= pad <= 1 # 2 -> dx0 < dx1 -> dy0 < dy1 ->
  let s := alignScale pad bw bh dx0 dy0 dx1 dy1 in
  0 <= s
  /\ (dx1 - dx0) * s <= bw * (1 - 2 * pad)
  /\ (dy1 - dy0) * s <= bh * (1 - 2 * pad).
Proof.
  intros Hw Hh [Hp0 Hp1] Hdx Hdy. cbv zeta. unfold alignScale.
  set (A := bw * (1 - 2 * pad) / (dx1 - dx0)).
  set (B := bh * (1 - 2 * pad) / (dy1 - dy0)).
  assert (HA : A * (dx1 - dx0) == bw * (1 - 2 * pad))
    by (unfold A; field; lra).
  assert (HB : B * (dy1 - dy0) == bh * (1 - 2 * pad))
    by (unfold B; field; lra).
  assert (HA0 : 0 <= A).
  { unfold A. apply Qle_shift_div_l; [lra|]. nra. }
  assert (HB0 : 0 <= B).
  { unfold B. apply Qle_shift_div_l; [lra|]. nra. }
  pose proof (Q.le_min_l A B) as Hl. pose proof (Q.le_min_r A B) as Hr.
  assert (Hs0 : 0 <= Qmin A B)
    by (destruct (Q.min_spec A B) as [[_ ->]|[_ ->]]; assumption).
  set (s := Qmin A B) in *. clearbody s A B.
  split; [exact Hs0|]. split; nra.
Qed.

(** The scale is the one of the binding axis. *)
Lemma alignScale_touches (pad bw bh dx0 dy0 dx1 dy1 : Q) :
  dx0 < dx1 -> dy0 < dy1 ->
  let s := alignScale pad bw bh dx0 dy0 dx1 dy1 in
  (dx1 - dx0) * s == bw * (1 - 2 * pad)
  \/ (dy1 - dy0) * s == bh * (1 - 2 * pad).
Proof.
  intros Hdx Hdy. cbv zeta. unfold alignScale.
  destruct (Q.min_spec (bw * (1 - 2 * pad) / (dx1 - dx0))
                       (bh * (1 - 2 * pad) / (dy1 - dy0))) as [[_ ->]|[_ ->]];
    [left | right]; field; lra.
Qed.

(** X5: with a target box of finite origin and non-negative sides, a padding
    between 0 and 1/2 and a cloud of positive width and height, every point
    of the cloud is placed inside the padded target:
    [x0 + w*pad <= X <= x0 + w - w*pad] and likewise for [Y]. *)
Theorem aligned_point_inside_padding
  (pad : Q) (bb : BBox) (sd : StateData) (city : StatePoint)
  (bx0 by0 bw bh cx cy dx0 dy0 dx1 dy1 : Q) :
  x0 bb = Fin bx0 -> y0 bb = Fin by0 -> w bb = Fin bw -> h bb = Fin bh ->
  0 <= bw -> 0 <= bh -> 0 <= pad <= 1 # 2 ->
  In city (allPtsOf sd) -> x city = Fin cx -> y city = Fin cy ->
  lowest dx0 (xsOf (allPtsOf sd)) -> lowest dy0 (ysOf (allPtsOf sd)) ->
  highest dx1 (xsOf (allPtsOf sd)) -> highest dy1 (ysOf (allPtsOf sd)) ->
  dx0 < dx1 -> dy0 < dy1 ->
  exists X Y,
    alignWith (Fin pad) sd city (ret bb) = ret {| px := Fin X; py := Fin Y |}
    /\ bx0 + bw * pad <= X <= bx0 + bw - bw * pad
    /\ by0 + bh * pad <= Y <= by0 + bh - bh * pad.
Proof.
  intros Hx0 Hy0 Hw Hh Hbw Hbh Hpad Hin Hcx Hcy Lx Ly Ux Uy Hdx Hdy.
  destruct (alignWith_finite pad bb sd city bx0 by0 bw bh cx cy dx0 dy0 dx1 dy1)
    as (X & Y & Heq & HX & HY); try assumption.
  exists X, Y. split; [exact Heq|].
  destruct (alignScale_fits pad bw bh dx0 dy0 dx1 dy1)
    as (Hs0 & Hsw & Hsh); try assumption.
  assert (Hxin : In cx (xsOf (allPtsOf sd))).
  { unfold xsOf. apply in_map_iff. exists city. split; [|exact Hin].
    now rewrite Hcx. }
  assert (Hyin : In cy (ysOf (allPtsOf sd))).
  { unfold ysOf. apply in_map_iff. exists city. split; [|exact Hin].
    now rewrite Hcy. }
  pose proof (proj2 Lx cx Hxin). pose proof (proj2 Ux cx Hxin).
  pose proof (proj2 Ly cy Hyin). pose proof (proj2 Uy cy Hyin).
  rewrite HX, HY. unfold alignedX, alignedY, origin. cbv zeta.
  set (s := alignScale pad bw bh dx0 dy0 dx1 dy1) in *. clearbody s.
  destruct Hpad as [Hp0 Hp1].
  unfold Qdiv. change (/ 2) with (1 # 2).
  repeat split; nra.
Qed.

Lemma aligned_point_inside_padding_witness :
  exists X Y,
    alignWith (Fin (4 # 100)) Fixtures.squareState
      (Fixtures.pointAt "North East" 10 10) (ret Fixtures.targetBox)
    = ret {| px := Fin X; py := Fin Y |}
    /\ 0 + 100 * (4 # 100) <= X <= 0 + 100 - 100 * (4 # 100)
    /\ 0 + 50 * (4 # 100) <= Y <= 0 + 50 - 50 * (4 # 100).
Proof.
  apply (aligned_point_inside_padding (4 # 100) Fixtures.targetBox
           Fixtures.squareState (Fixtures.pointAt "North East" 10 10)
           0 0 100 50 10 10 0 0 10 10);
    try reflexivity; try discriminate.
  - split; discriminate.
  - right. right. now left.
  - extreme_of 0.
  - extreme_of 0.
  - extreme_of 10.
  - extreme_of 10.
Defined.

(** X6: the corners [(dx0, dy0)] and [(dx1, dy1)] of the cloud's box are
    placed with equal margins to the padded target on both sides of each
    axis (the cloud is centred), the placed box touches the padded target
    along at least one axis, and its sides keep the proportion of the
    cloud's sides (one scale for both axes). *)
Theorem aligned_cloud_centred
  (pad : Q) (bb : BBox) (sd : StateData) (lo hi : StatePoint)
  (bx0 by0 bw bh dx0 dy0 dx1 dy1 : Q) :
  x0 bb = Fin bx0 -> y0 bb = Fin by0 -> w bb = Fin bw -> h bb = Fin bh ->
  x lo = Fin dx0 -> y lo = Fin dy0 -> x hi = Fin dx1 -> y hi = Fin dy1 ->
  lowest dx0 (xsOf (allPtsOf sd)) -> lowest dy0 (ysOf (allPtsOf sd)) ->
  highest dx1 (xsOf (allPtsOf sd)) -> highest dy1 (ysOf (allPtsOf sd)) ->
  dx0 < dx1 -> dy0 < dy1 ->
  exists X0 Y0 X1 Y1,
    alignWith (Fin pad) sd lo (ret bb) = ret {| px := Fin X0; py := Fin Y0 |}
    /\ alignWith (Fin pad) sd hi (ret bb) = ret {| px := Fin X1; py := Fin Y1 |}
    /\ X0 - (bx0 + bw * pad) == (bx0 + bw - bw * pad) - X1
    /\ Y0 - (by0 + bh * pad) == (by0 + bh - bh * pad) - Y1
    /\ (X0 == bx0 + bw * pad \/ Y0 == by0 + bh * pad)
    /\ (X1 - X0) * (dy1 - dy0) == (Y1 - Y0) * (dx1 - dx0).
Proof.
  intros Hx0 Hy0 Hw Hh Hlx Hly Hhx Hhy Lx Ly Ux Uy Hdx Hdy.
  destruct (alignWith_finite pad bb sd lo bx0 by0 bw bh dx0 dy0 dx0 dy0 dx1 dy1)
    as (X0 & Y0 & Heq0 & HX0 & HY0); try assumption.
  destruct (alignWith_finite pad bb sd hi bx0 by0 bw bh dx1 dy1 dx0 dy0 dx1 dy1)
    as (X1 & Y1 & Heq1 & HX1 & HY1); try assumption.
  exists X0, Y0, X1, Y1. split; [exact Heq0|]. split; [exact Heq1|].
  pose proof (alignScale_touches pad bw bh dx0 dy0 dx1 dy1 Hdx Hdy) as Ht.
  cbv zeta in Ht.
  rewrite HX0, HY0, HX1, HY1. unfold alignedX, alignedY, origin. cbv zeta.
  set (s := alignScale pad bw bh dx0 dy0 dx1 dy1) in *. clearbody s.
  split; [field|]. split; [field|]. split; [|ring].
  destruct Ht as [E|E]; [left | right].
  - setoid_replace ((dx0 - dx0) * s) with 0 by ring. rewrite <- E. field.
  - setoid_replace ((dy0 - dy0) * s) with 0 by ring. rewrite <- E. field.
Qed.

Lemma aligned_cloud_centred_witness :
  exists X0 Y0 X1 Y1,
    alignWith (Fin (4 # 100)) Fixtures.squareState
      (Fixtures.pointAt "South West" 0 0) (ret Fixtures.targetBox)
    = ret {| px := Fin X0; py := Fin Y0 |}
    /\ alignWith (Fin (4 # 100)) Fixtures.squareState
         (Fixtures.pointAt "North East" 10 10) (ret Fixtures.targetBox)
       = ret {| px := Fin X1; py := Fin Y1 |}
    /\ X0 - (0 + 100 * (4 # 100)) == (0 + 100 - 100 * (4 # 100)) - X1
    /\ Y0 - (0 + 50 * (4 # 100)) == (0 + 50 - 50 * (4 # 100)) - Y1
    /\ (X0 == 0 + 100 * (4 # 100) \/ Y0 == 0 + 50 * (4 # 100))
    /\ (X1 - X0) * (10 - 0) == (Y1 - Y0) * (10 - 0).
Proof.
  apply (aligned_cloud_centred (4 # 100) Fixtures.targetBox Fixtures.squareState
           (Fixtures.pointAt "South West" 0 0)
           (Fixtures.pointAt "North East" 10 10)
           0 0 100 50 0 0 10 10);
    try reflexivity.
  - extreme_of 0.
  - extreme_of 0.
  - extreme_of 10.
  - extreme_of 10.
Defined.

(** The box is returned exactly when the region is there and all its arc
    indices refer to arcs of the topology. *)
Lemma bbox_ok_iff (topology : Topology) (fips : jsstring) :
  failed (getStateBBoxFromTopology topology fips) = false
  <-> exists geom,
        find (fun g => Str.eqb (id g) fips) (geometries topology) = Some geom
        /\ forall i, In i (indicesOf (shape geom)) ->
             (0 <= arcId i < Z.of_nat (List.length (arcs topology)))%Z.
Proof.
  unfold getStateBBoxFromTopology.
  destruct (find _ (geometries topology)) as [geom|].
  - pose proof (polysOf_failed (decode topology) (shape geom)) as Hf.
    split.
    + intro H. exists geom. split; [reflexivity|]. intros i Hi.
      rewrite <- decode_length. apply resolveArc_failed.
      destruct (failed (resolveArc (decode topology) i)) eqn:E; [|reflexivity].
      assert (Hex : existsb (fun i => failed (resolveArc (decode topology) i))
                      (indicesOf (shape geom)) = true)
        by (apply existsb_exists; now exists i).
      destruct (polysOf (decode topology) (shape geom)); cbn in *; congruence.
    + intros (g & Hg & Hall). injection Hg as <-.
      destruct (polysOf (decode topology) (shape geom)) as [e|polys];
        [|reflexivity].
      exfalso. cbn [failed] in Hf. symmetry in Hf.
      apply existsb_exists in Hf as (i & Hin & Hi).
      specialize (Hall i Hin). rewrite <- decode_length in Hall.
      apply resolveArc_failed in Hall. congruence.
  - cbn. split; [discriminate|]. intros (g & Hg & _). discriminate.
Qed.

(** X7: [getExpectedAlignedCityPoint] returns a point exactly when a city of
    the state has the requested name (compared in lower case), the state has
    at least one point with finite coordinates, the region is in the
    topology and all its arc indices refer to arcs of the topology.  A
    missing city is reported first, whatever the rest. *)
Theorem aligned_point_succeeds_iff
  (toLowerCase : jsstring -> jsstring) (sd : StateData) (topology : Topology)
  (fips cityName : jsstring) :
  (failed (getExpectedAlignedCityPoint toLowerCase sd topology fips cityName)
   = false
   <-> (exists city,
          find (fun c => Str.eqb (toLowerCase (name c)) (toLowerCase cityName))
               (cities sd) = Some city)
       /\ allPtsOf sd <> []
       /\ exists geom,
            find (fun g => Str.eqb (id g) fips) (geometries topology) = Some geom
            /\ forall i, In i (indicesOf (shape geom)) ->
                 (0 <= arcId i < Z.of_nat (List.length (arcs topology)))%Z)
  /\ (find (fun c => Str.eqb (toLowerCase (name c)) (toLowerCase cityName))
           (cities sd) = None ->
      getExpectedAlignedCityPoint toLowerCase sd topology fips cityName
      = throw MissingCity).
Proof.
  unfold getExpectedAlignedCityPoint.
  destruct (find _ (cities sd)) as [city|].
  - split; [|discriminate].
    rewrite <- bbox_ok_iff. unfold alignWith.
    destruct (allPtsOf sd) as [|p rest]; cbn [List.length Nat.eqb].
    + cbn. split; [discriminate|]. intros (_ & H & _). congruence.
    + destruct (getStateBBoxFromTopology topology fips) as [e|bb]; cbn.
      * split; [discriminate|]. intros (_ & _ & H). discriminate.
      * split; [|reflexivity]. intros _.
        split; [now exists city|]. split; [discriminate | reflexivity].
  - split; [|reflexivity]. cbn. split; [discriminate|].
    intros ((c & H) & _). discriminate.
Qed.

End AlignerGeometry.

(** ** More on extractLocationLabel *)

Section TrimFacts.

Lemma trimStart_fixed (s : jsstring) :
  match s with [] => True | c :: _ => isWhiteSpace c = false end ->
  trimStart s = s.
Proof. destruct s as [|c r]; [reflexivity|]. cbn. now intros ->. Qed.

Lemma trimStart_head (s : jsstring) :
  match trimStart s with [] => True | c :: _ => isWhiteSpace c = false end.
Proof.
  induction s as [|c r IH]; [exact I|].
  cbn. destruct (isWhiteSpace c) eqn:E; [exact IH | exact E].
Qed.

Lemma trimStart_idem (s : jsstring) : trimStart (trimStart s) = trimStart s.
Proof. apply trimStart_fixed, trimStart_head. Qed.

Lemma trimStart_snoc (l : jsstring) (c : N) :
  trimStart (l ++ [c])
  = match trimStart l with
    | [] => if isWhiteSpace c then [] else [c]
    | _ :: _ => trimStart l ++ [c]
    end.
Proof.
  induction l as [|a r IH]; [reflexivity|].
  cbn. destruct (isWhiteSpace a); [exact IH | reflexivity].
Qed.

Lemma trimEnd_cons (c : N) (r : jsstring) :
  trimEnd (c :: r)
  = match trimEnd r with
    | [] => if isWhiteSpace c then [] else [c]
    | _ :: _ => c :: trimEnd r
    end.
Proof.
  unfold trimEnd. cbn [rev]. rewrite trimStart_snoc.
  destruct (trimStart (rev r)) as [|a t] eqn:E.
  - cbn. destruct (isWhiteSpace c); reflexivity.
  - rewrite rev_app_distr. change (rev [c]) with [c].
    change ([c] ++ rev (a :: t)) with (c :: rev (a :: t)).
    destruct (rev (a :: t)) eqn:E2; [|reflexivity].
    apply (f_equal (@List.length _)) in E2. rewrite length_rev in E2.
    discriminate.
Qed.

Lemma trimEnd_idem (s : jsstring) : trimEnd (trimEnd s) = trimEnd s.
Proof. unfold trimEnd. now rewrite rev_involutive, trimStart_idem. Qed.

(** Trimming the end keeps a first code unit that is not white space. *)
Lemma trimEnd_head (s : jsstring) :
  match s with [] => True | c :: _ => isWhiteSpace c = false end ->
  match trimEnd s with [] => True | c :: _ => isWhiteSpace c = false end.
Proof.
  destruct s as [|c r]; [intros _; exact I|].
  intro Hc. rewrite trimEnd_cons. rewrite Hc.
  destruct (trimEnd r); exact Hc.
Qed.

Lemma trim_idem (s : jsstring) : trim (trim s) = trim s.
Proof.
  unfold trim.
  rewrite (trimStart_fixed (trimEnd (trimStart s))).
  - apply trimEnd_idem.
  - apply trimEnd_head, trimStart_head.
Qed.

Lemma trimmed_idem (f : option jsstring) : trim (trimmed f) = trimmed f.
Proof. destruct f as [s|]; [apply trim_idem | reflexivity]. Qed.

End TrimFacts.

Section LocalityFirstFacts.

Import Spec LabelSpec.

Lemma qualifies_eligibleAdmin (e : Entry) :
  LocalityFirst.qualifies e = true <-> eligibleAdmin e.
Proof.
  unfold LocalityFirst.qualifies, eligibleAdmin, atLeast.
  rewrite !andb_true_iff, negb_true_iff. split.
  - intros [[Ho Hn] Ha]. repeat split; try assumption.
    + destruct (adminLevel e) as [o|]; [|discriminate].
      exists o. split; [reflexivity | now apply Qle_bool_iff].
    + intro E. rewrite E in Hn. discriminate.
  - intros [(o & -> & Ho) [Hn Ha]]. repeat split; try assumption.
    + now apply Qle_bool_iff.
    + destruct (Geo.name e); [congruence | reflexivity].
Qed.

Lemma admin_candidates_head (l : list Entry) :
  match LocalityFirst.candidates l with
  | [] => forall e, In e l -> ~ eligibleAdmin e
  | c :: _ =>
      In c l /\ eligibleAdmin c
      /\ forall e, In e l -> eligibleAdmin e ->
           orZero (adminLevel e) <= orZero (adminLevel c)
  end.
Proof.
  unfold LocalityFirst.candidates, LocalityFirst.byLevelDesc.
  pose proof (sort_head_max (fun e => orZero (adminLevel e))
                (filter LocalityFirst.qualifies l)) as H.
  destruct (sort _ (filter LocalityFirst.qualifies l)) as [|c r].
  - intros e He Hel. apply qualifies_eligibleAdmin in Hel.
    assert (Hin : In e (filter LocalityFirst.qualifies l))
      by (apply filter_In; now split).
    rewrite H in Hin. exact Hin.
  - destruct H as [Hc Hmax]. apply filter_In in Hc as [Hc Hq].
    split; [exact Hc|]. split; [now apply qualifies_eligibleAdmin|].
    intros e He Hel. apply Hmax. apply filter_In. split; [exact He|].
    now apply qualifies_eligibleAdmin.
Qed.

(** What the last two steps return. *)
Lemma fromAdministrative_spec (geo : BigDataCloudResponse) :
  let adm := entriesOf (administrativeOf geo) in
  ((exists e, In e adm /\ eligibleAdmin e) ->
     exists c, In c adm /\ eligibleAdmin c
       /\ (forall e, In e adm -> eligibleAdmin e ->
             orZero (adminLevel e) <= orZero (adminLevel c))
       /\ LocalityFirst.fromAdministrative geo = Geo.name c)
  /\ ((forall e, In e adm -> ~ eligibleAdmin e) ->
       LocalityFirst.fromAdministrative geo = LocalityFirst.lastResort geo).
Proof.
  cbv zeta. unfold LocalityFirst.fromAdministrative, entriesOf. split.
  - intros (e & He & Hel).
    destruct (administrativeOf geo) as [l|]; [|destruct He].
    pose proof (admin_candidates_head l) as H.
    destruct (LocalityFirst.candidates l) as [|c r].
    + exfalso. exact (H e He Hel).
    + destruct H as (Hc & Hq & Hmax). exists c.
      split; [exact Hc|]. split; [exact Hq|]. split; [exact Hmax | reflexivity].
  - intros Hnone.
    destruct (administrativeOf geo) as [l|]; [|reflexivity].
    pose proof (admin_candidates_head l) as H.
    destruct (LocalityFirst.candidates l) as [|c r]; [reflexivity|].
    destruct H as (Hc & Hq & _). exfalso. exact (Hnone c Hc Hq).
Qed.

(** X8: the locality-first variant applies this order: the trimmed locality
    when it is not blank and does not match the administrative pattern;
    otherwise the trimmed city under the same condition; otherwise, among
    the entries of [localityInfo.administrative] with an adminLevel of at
    least 8 and a non-empty name whose trimmed form does not match the
    pattern, the name of one with the highest adminLevel; otherwise the
    trimmed principalSubdivision when it is not blank; otherwise the empty
    string. *)
Theorem locality_first_precedence (geo : BigDataCloudResponse) :
  let adm := entriesOf (administrativeOf geo) in
  let label := LocalityFirst.extractLocationLabel geo in
  (plain (locality geo) = true -> label = trimmed (locality geo))
  /\ (plain (locality geo) = false -> plain (city geo) = true ->
      label = trimmed (city geo))
  /\ (plain (locality geo) = false -> plain (city geo) = false ->
      (exists e, In e adm /\ eligibleAdmin e) ->
      exists c, In c adm /\ eligibleAdmin c
        /\ (forall e, In e adm -> eligibleAdmin e ->
              orZero (adminLevel e) <= orZero (adminLevel c))
        /\ label = Geo.name c)
  /\ (plain (locality geo) = false -> plain (city geo) = false ->
      (forall e, In e adm -> ~ eligibleAdmin e) ->
      label = if filled (principalSubdivision geo)
              then trimmed (principalSubdivision geo) else []).
Proof.
  cbv zeta. unfold LocalityFirst.extractLocationLabel.
  fold (filled (locality geo)) (filled (city geo)).
  fold (plain (locality geo)) (plain (city geo)).
  destruct (fromAdministrative_spec geo) as [Hsome Hnone].
  repeat apply conj.
  - intros ->. reflexivity.
  - intros -> ->. reflexivity.
  - intros -> -> H. exact (Hsome H).
  - intros -> -> H. rewrite (Hnone H). reflexivity.
Qed.

Lemma locality_first_precedence_witness :
  LocalityFirst.extractLocationLabel Fixtures.canalWinchesterFixture
  = trimmed (locality Fixtures.canalWinchesterFixture).
Proof.
  apply (proj1 (locality_first_precedence Fixtures.canalWinchesterFixture)).
  reflexivity.
Defined.

(** X9: the locality-first variant never returns a name that matches the
    administrative pattern once trimmed, unless the name is its last resort,
    the principalSubdivision. *)
Theorem locality_first_never_administrative (geo : BigDataCloudResponse) :
  let label := LocalityFirst.extractLocationLabel geo in
  label = LocalityFirst.lastResort geo
  \/ ADMIN_PATTERN_test (trim label) = false.
Proof.
  cbv zeta. unfold LocalityFirst.extractLocationLabel.
  destruct (truthy (trimmed (locality geo))
            && negb (ADMIN_PATTERN_test (trimmed (locality geo)))) eqn:El.
  { right. apply andb_true_iff in El as [_ El].
    rewrite trimmed_idem. now apply negb_true_iff. }
  destruct (truthy (trimmed (city geo))
            && negb (ADMIN_PATTERN_test (trimmed (city geo)))) eqn:Ec.
  { right. apply andb_true_iff in Ec as [_ Ec].
    rewrite trimmed_idem. now apply negb_true_iff. }
  unfold LocalityFirst.fromAdministrative.
  destruct (administrativeOf geo) as [l|]; [|now left].
  pose proof (admin_candidates_head l) as H.
  destruct (LocalityFirst.candidates l) as [|c r]; [now left|].
  right. destruct H as (_ & (_ & _ & Ha) & _). exact Ha.
Qed.

Lemma eligible_name_truthy (n : jsstring) : n <> [] -> truthy n = true.
Proof. destruct n; [congruence | reflexivity]. Qed.

Lemma truthy_nil_iff (s : jsstring) : s = [] <-> truthy s = false.
Proof. destruct s; split; (reflexivity || discriminate). Qed.

(** X10: both variants return the empty string exactly when nothing is
    usable.  Informative first: no eligible informative entry, a blank city, a
    locality that is blank or administrative, a blank principalSubdivision.
    Locality first: a locality and a city that are blank or administrative, no
    eligible administrative entry, a blank principalSubdivision. *)
Theorem empty_label_iff (geo : BigDataCloudResponse) :
  (InformativeFirst.extractLocationLabel geo = []
   <-> (forall e, In e (entriesOf (informativeOf geo)) -> ~ eligible e)
       /\ filled (city geo) = false
       /\ plain (locality geo) = false
       /\ filled (principalSubdivision geo) = false)
  /\ (LocalityFirst.extractLocationLabel geo = []
      <-> plain (locality geo) = false
          /\ plain (city geo) = false
          /\ (forall e, In e (entriesOf (administrativeOf geo)) ->
                ~ eligibleAdmin e)
          /\ filled (principalSubdivision geo) = false).
Proof.
  split.
  - unfold InformativeFirst.extractLocationLabel, entriesOf.
    assert (Hfb : InformativeFirst.fallback geo = []
                  <-> filled (city geo) = false
                      /\ plain (locality geo) = false
                      /\ filled (principalSubdivision geo) = false).
    { rewrite fallback_cascade. fold (plain (locality geo)).
      unfold filled at 1 3. unfold plain, filled.
      destruct (truthy (trimmed (city geo))) eqn:E1.
      - rewrite truthy_nil_iff, E1. split; [discriminate | now intros [? _]].
      - destruct (truthy (trimmed (locality geo))
                  && negb (ADMIN_PATTERN_test (trimmed (locality geo)))) eqn:E2.
        + apply andb_true_iff in E2 as [E2 _].
          rewrite truthy_nil_iff, E2.
          split; [discriminate | now intros (_ & ? & _)].
        + destruct (truthy (trimmed (principalSubdivision geo))) eqn:E3.
          * rewrite truthy_nil_iff, E3.
            split; [discriminate | now intros (_ & _ & ?)].
          * split; [now intros _ | reflexivity]. }
    destruct (informativeOf geo) as [l|].
    + pose proof (candidates_head l) as H.
      destruct (InformativeFirst.candidates l) as [|c r].
      * rewrite Hfb. split; [intro; now split | now intros [_ ?]].
      * destruct H as (Hc & Hel & _). split.
        -- intro E. exfalso. destruct Hel as (_ & Hn & _). now apply Hn.
        -- intros [Hnone _]. exfalso. exact (Hnone c Hc Hel).
    + rewrite Hfb. split; [intro; split; [intros e []|assumption] | now intros [_ ?]].
  - unfold LocalityFirst.extractLocationLabel, entriesOf.
    fold (filled (locality geo)) (filled (city geo)).
    fold (plain (locality geo)) (plain (city geo)).
    destruct (plain (locality geo)) eqn:El.
    { unfold plain in El. apply andb_true_iff in El as [El _].
      unfold filled in El. rewrite truthy_nil_iff, El.
      split; [discriminate | now intros [? _]]. }
    destruct (plain (city geo)) eqn:Ec.
    { unfold plain in Ec. apply andb_true_iff in Ec as [Ec _].
      unfold filled in Ec. rewrite truthy_nil_iff, Ec.
      split; [discriminate | now intros (_ & ? & _)]. }
    assert (Hlr : LocalityFirst.lastResort geo = []
                  <-> filled (principalSubdivision geo) = false).
    { unfold LocalityFirst.lastResort, filled.
      destruct (truthy (trimmed (principalSubdivision geo))) eqn:E3.
      - rewrite truthy_nil_iff, E3. split; discriminate.
      - split; reflexivity. }
    unfold LocalityFirst.fromAdministrative.
    destruct (administrativeOf geo) as [l|].
    + pose proof (admin_candidates_head l) as H.
      destruct (LocalityFirst.candidates l) as [|c r].
      * rewrite Hlr. split; [intro; repeat split; assumption | now intros (_ & _ & _ & ?)].
      * destruct H as (Hc & Hel & _). split.
        -- intro E. exfalso. destruct Hel as (_ & Hn & _). now apply Hn.
        -- intros (_ & _ & Hnone & _). exfalso. exact (Hnone c Hc Hel).
    + rewrite Hlr. split.
      * intro. repeat split; try assumption. intros e [].
      * now intros (_ & _ & _ & ?).
Qed.

End LocalityFirstFacts.

(** ** buildExploreHref *)

Section HrefFacts.

Import Url UrlSpec ExploreHref.

Lemma hexDigit_safe (n : N) : urlSafe (hexDigit n) = true.
Proof.
  unfold hexDigit. cbv zeta.
  assert (H : (n mod 16 < 16)%N) by (apply N.mod_lt; discriminate).
  set (d := (n mod 16)%N) in *. clearbody d.
  unfold urlSafe, unreserved, isAlphanumeric.
  destruct (N.ltb_spec d 10) as [L|L].
  - assert (E1 : (48 <=? 48 + d)%N = true) by (apply N.leb_le; lia).
    assert (E2 : (48 + d <=? 57)%N = true) by (apply N.leb_le; lia).
    now rewrite E1, E2.
  - assert (E1 : (65 <=? 55 + d)%N = true) by (apply N.leb_le; lia).
    assert (E2 : (55 + d <=? 90)%N = true) by (apply N.leb_le; lia).
    rewrite E1, E2. cbn. now rewrite !orb_true_r.
Qed.

Lemma encodeByte_safe (b : N) :
  Forall (fun c => urlSafe c = true) (encodeByte b).
Proof.
  unfold encodeByte. destruct (b =? 32)%N.
  - repeat constructor.
  - destruct (unreserved b) eqn:E.
    + constructor; [|constructor]. unfold urlSafe. now rewrite E.
    + repeat constructor; apply hexDigit_safe.
Qed.

Lemma formEncode_safe (s : jsstring) :
  Forall (fun c => urlSafe c = true) (formEncode s).
Proof.
  unfold formEncode. induction (flat_map utf8 (toScalars s)) as [|b rest IH].
  - constructor.
  - cbn [flat_map]. apply Forall_app. split; [apply encodeByte_safe | exact IH].
Qed.

Lemma serialize_from (l : Params) :
  forall acc,
  Forall (fun c => urlSafe c = true) acc ->
  (acc <> [] \/ l <> []) ->
  let out :=
    fold_left
      (fun output p =>
         (match output with [] => [] | _ :: _ => output ++ [38%N] end)
         ++ formEncode (fst p) ++ [61%N] ++ formEncode (snd p))
      l acc in
  Forall (fun c => urlSafe c = true) out /\ out <> [].
Proof.
  induction l as [|p rest IH]; intros acc Hsafe Hne; cbv zeta.
  - cbn. split; [exact Hsafe|]. destruct Hne as [H|H]; congruence.
  - cbn [fold_left]. apply IH.
    + apply Forall_app. split.
      * destruct acc; [constructor|].
        apply Forall_app. split; [exact Hsafe | repeat constructor].
      * apply Forall_app. split; [apply formEncode_safe|].
        apply Forall_app. split; [repeat constructor | apply formEncode_safe].
    + left. intro E. apply (f_equal (@List.length _)) in E.
      rewrite !length_app in E. cbn in E. lia.
Qed.

Lemma serialize_safe (l : Params) :
  l <> [] ->
  Forall (fun c => urlSafe c = true) (serialize l) /\ serialize l <> [].
Proof.
  intro H. apply (serialize_from l []); [constructor | now right].
Qed.

Lemma set_nonempty (name value : jsstring) (l : Params) :
  set name value l <> [].
Proof.
  unfold set. destruct (hasName name l) eqn:E.
  - unfold hasName in E. induction l as [|p rest IH]; [discriminate|].
    cbn in *. destruct (Str.eqb (fst p) name); discriminate.
  - destruct l; discriminate.
Qed.

(** The parameters are empty exactly when nothing was given. *)
Lemma params_empty_iff (numberToString : number -> jsstring)
  (state : option jsstring) (lat lon : option number) (city : option jsstring) :
  withCity city (withCoordinates numberToString lat lon (withState state [])) = []
  <-> present state = false /\ (lat = None \/ lon = None)
      /\ present city = false.
Proof.
  unfold withCity, withCoordinates, withState, present.
  destruct city as [c|]; [destruct (truthy c) eqn:Ec|].
  1:{ split; [intro H; now apply set_nonempty in H | now intros (_ & _ & ?)]. }
  all: destruct lat as [la|]; [destruct lon as [lo|]|].
  all: try (split; [intro H; now apply set_nonempty in H
                   | intros (_ & [?|?] & _); discriminate]).
  all: destruct state as [st|]; [destruct (truthy st) eqn:Es|].
  all: try (split; [intro H; now apply set_nonempty in H | now intros [? _]]).
  all: split; [intros _; repeat split; auto | reflexivity].
Qed.

(** X11: the link is the bare ["/explore.html"] exactly when there is
    nothing to pass on: no state (or an empty one), not both coordinates, no
    city (or an empty one).  As soon as a state, a pair of coordinates or a
    city is given, the link carries a query string. *)
Theorem explore_href_bare_iff (numberToString : number -> jsstring)
  (state : option jsstring) (lat lon : option number) (city : option jsstring) :
  buildExploreHref numberToString state lat lon city = js "/explore.html"
  <-> present state = false /\ (lat = None \/ lon = None)
      /\ present city = false.
Proof.
  rewrite <- (params_empty_iff numberToString).
  unfold buildExploreHref. cbv zeta.
  set (params := withCity city _).
  destruct params as [|p rest] eqn:E.
  - cbn. split; reflexivity.
  - destruct (serialize_safe (p :: rest)) as [_ Hne]; [discriminate|].
    destruct (serialize (p :: rest)) as [|c qs]; [congruence|].
    cbn [truthy]. split; [|discriminate].
    intro H. apply (f_equal (@List.length _)) in H.
    rewrite length_app in H. cbn in H. lia.
Qed.

(** X12: the link is either the bare ["/explore.html"] or ["/explore.html?"]
    followed by a non-empty query made only of ASCII letters and digits and
    of [* - . _ + % & =]: whatever the state and the city contain, no space,
    quote, angle bracket or other character reaches the link unencoded. *)
Theorem explore_href_is_url_safe (numberToString : number -> jsstring)
  (state : option jsstring) (lat lon : option number) (city : option jsstring) :
  buildExploreHref numberToString state lat lon city = js "/explore.html"
  \/ exists qs,
       buildExploreHref numberToString state lat lon city
       = js "/explore.html?" ++ qs
       /\ qs <> []
       /\ Forall (fun c => urlSafe c = true) qs.
Proof.
  unfold buildExploreHref. cbv zeta.
  set (params := withCity city _).
  destruct params as [|p rest] eqn:E.
  - left. reflexivity.
  - destruct (serialize_safe (p :: rest)) as [Hsafe Hne]; [discriminate|].
    right. exists (serialize (p :: rest)).
    destruct (serialize (p :: rest)) as [|c qs]; [congruence|].
    cbn [truthy]. repeat split; assumption.
Qed.

End HrefFacts.

(** ** The worker: escapeHtml *)

Section EscapeFacts.

Import Worker WorkerSpec.

Lemma flat_map_flat_map {A B C : Type} (f : A -> list B) (g : B -> list C)
  (l : list A) :
  flat_map g (flat_map f l) = flat_map (fun a => flat_map g (f a)) l.
Proof.
  induction l as [|a rest IH]; [reflexivity|].
  cbn [flat_map]. now rewrite flat_map_app, IH.
Qed.

Lemma flat_map_pointwise {A B : Type} (f g : A -> list B) (l : list A) :
  (forall a, f a = g a) -> flat_map f l = flat_map g l.
Proof.
  intro H. induction l as [|a rest IH]; [reflexivity|].
  cbn [flat_map]. now rewrite H, IH.
Qed.

(** The four replacements in a row rewrite each code unit once: an
    ampersand written by a later replacement is not escaped again, because
    the ampersands are replaced first. *)
Lemma escapeHtml_chars (s : jsstring) : escapeHtml s = flat_map escapeChar s.
Proof.
  unfold escapeHtml, replaceAll. rewrite !flat_map_flat_map.
  apply flat_map_pointwise. intro c. unfold escapeChar.
  destruct (N.eqb_spec c 38) as [->|H38]; [reflexivity|].
  destruct (N.eqb_spec c 60) as [->|H60]; [reflexivity|].
  destruct (N.eqb_spec c 62) as [->|H62]; [reflexivity|].
  cbn [flat_map app].
  destruct (N.eqb_spec c 60); [contradiction|]. cbn [flat_map app].
  destruct (N.eqb_spec c 62); [contradiction|]. cbn [flat_map app].
  now rewrite !app_nil_r.
Qed.

Lemma escapeChar_clean (c : N) :
  Forall (fun x => x <> 60%N /\ x <> 62%N /\ x <> 34%N) (escapeChar c).
Proof.
  unfold escapeChar.
  destruct (N.eqb_spec c 38); [repeat constructor; discriminate|].
  destruct (N.eqb_spec c 60); [repeat constructor; discriminate|].
  destruct (N.eqb_spec c 62); [repeat constructor; discriminate|].
  destruct (N.eqb_spec c 34); [repeat constructor; discriminate|].
  repeat constructor; assumption.
Qed.

(** X13: [escapeHtml] rewrites each code unit on its own: [&], [<], [>] and
    the double quote become [&amp;], [&lt;], [&gt;], [&quot;] and every other
    code unit is kept, so nothing is escaped twice.  The result holds no [<],
    [>] or double quote, escaping distributes over concatenation, and a text
    without the four characters is returned unchanged. *)
Theorem escapeHtml_is_safe (s : jsstring) :
  escapeHtml s = flat_map escapeChar s
  /\ Forall (fun x => x <> 60%N /\ x <> 62%N /\ x <> 34%N) (escapeHtml s)
  /\ (forall t, escapeHtml (s ++ t) = escapeHtml s ++ escapeHtml t)
  /\ (forallb (fun c => negb (special c)) s = true -> escapeHtml s = s).
Proof.
  split; [apply escapeHtml_chars|]. split; [|split].
  - rewrite escapeHtml_chars. induction s as [|c rest IH]; [constructor|].
    cbn [flat_map]. apply Forall_app. split; [apply escapeChar_clean | exact IH].
  - intro t. rewrite !escapeHtml_chars. apply flat_map_app.
  - rewrite escapeHtml_chars. induction s as [|c rest IH]; [reflexivity|].
    cbn [forallb flat_map]. intro H. apply andb_true_iff in H as [Hc Hr].
    rewrite (IH Hr). unfold special in Hc. unfold escapeChar.
    destruct (c =? 38)%N; [discriminate|]. destruct (c =? 60)%N; [discriminate|].
    destruct (c =? 62)%N; [discriminate|]. destruct (c =? 34)%N; [discriminate|].
    reflexivity.
Qed.

Lemma escapeHtml_is_safe_witness :
  escapeHtml (js "Ohio") = js "Ohio".
Proof.
  apply (proj2 (proj2 (proj2 (escapeHtml_is_safe (js "Ohio"))))). reflexivity.
Defined.

(** The head of an escaped text tells the head of the text. *)
Lemma escapeChar_head (c : N) :
  exists h t, escapeChar c = h :: t
    /\ (special c = false -> h = c /\ t = [])
    /\ (special c = true -> h = 38%N
        /\ ((c = 38%N /\ t = js "amp;") \/ (c = 60%N /\ t = js "lt;")
            \/ (c = 62%N /\ t = js "gt;") \/ (c = 34%N /\ t = js "quot;"))).
Proof.
  unfold escapeChar, special.
  destruct (N.eqb_spec c 38) as [->|?];
    [eexists _, _; split; [reflexivity|]; split; [discriminate|];
     intros _; split; [reflexivity | now left]|].
  destruct (N.eqb_spec c 60) as [->|?];
    [eexists _, _; split; [reflexivity|]; split; [discriminate|];
     intros _; split; [reflexivity | right; now left]|].
  destruct (N.eqb_spec c 62) as [->|?];
    [eexists _, _; split; [reflexivity|]; split; [discriminate|];
     intros _; split; [reflexivity | right; right; now left]|].
  destruct (N.eqb_spec c 34) as [->|?];
    [eexists _, _; split; [reflexivity|]; split; [discriminate|];
     intros _; split; [reflexivity | right; right; now right]|].
  eexists _, _. split; [reflexivity|]. split; [now intros _ | discriminate].
Qed.

(** X14: [escapeHtml] is injective: two different texts are never escaped
    to the same text, so the escaped text determines the original. *)
Theorem escapeHtml_injective (s t : jsstring) :
  escapeHtml s = escapeHtml t -> s = t.
Proof.
  rewrite !escapeHtml_chars. revert t.
  induction s as [|c rest IH]; intros [|d rest'] H.
  - reflexivity.
  - exfalso. cbn [flat_map] in H.
    destruct (escapeChar_head d) as (h & t & E & _). rewrite E in H. discriminate.
  - exfalso. cbn [flat_map] in H.
    destruct (escapeChar_head c) as (h & t & E & _). rewrite E in H. discriminate.
  - cbn [flat_map] in H.
    destruct (escapeChar_head c) as (h & t & E & Hp & Hs).
    destruct (escapeChar_head d) as (h' & t' & E' & Hp' & Hs').
    rewrite E, E' in H. cbn [app] in H. injection H as Hh Ht.
    destruct (special c) eqn:Sc, (special d) eqn:Sd.
    + destruct (Hs eq_refl) as [_ Hc], (Hs' eq_refl) as [_ Hd].
      destruct Hc as [[-> ->]|[[-> ->]|[[-> ->]|[-> ->]]]];
        destruct Hd as [[-> ->]|[[-> ->]|[[-> ->]|[-> ->]]]];
        first [ f_equal; apply IH; exact (app_inv_head _ _ _ Ht)
              | exfalso; vm_compute in Ht; discriminate Ht ].
    + exfalso. destruct (Hs eq_refl) as [-> _], (Hp' eq_refl) as [-> _].
      subst d. discriminate.
    + exfalso. destruct (Hp eq_refl) as [-> _], (Hs' eq_refl) as [-> _].
      subst c. discriminate.
    + destruct (Hp eq_refl) as [-> ->], (Hp' eq_refl) as [-> ->].
      subst d. f_equal. now apply IH.
Qed.

Lemma escapeHtml_injective_witness :
  js "a<b" = js "a<b".
Proof.
  apply (escapeHtml_injective (js "a<b") (js "a<b")). reflexivity.
Defined.

End EscapeFacts.

(** ** The worker: validation and parsing of the ratios *)

Section RatioFacts.

Import Worker WorkerSpec.

Lemma span_spec (f : N -> bool) (s : jsstring) :
  forall a b, span f s = (a, b) ->
  s = a ++ b /\ forallb f a = true
  /\ match b with [] => True | c :: _ => f c = false end.
Proof.
  induction s as [|c rest IH]; intros a b H; cbn in H.
  - injection H as <- <-. repeat split.
  - destruct (f c) eqn:Ec.
    + destruct (span f rest) as [a' b'] eqn:E. injection H as <- <-.
      destruct (IH a' b' eq_refl) as (-> & Ha & Hb).
      repeat split; [cbn; now rewrite Ec | exact Hb].
    + injection H as <- <-. repeat split. exact Ec.
Qed.

(** A run of [f] followed by something that does not start with [f]. *)
Lemma span_app (f : N -> bool) (a b : jsstring) :
  forallb f a = true ->
  match b with [] => True | c :: _ => f c = false end ->
  span f (a ++ b) = (a, b).
Proof.
  intros Ha Hb. induction a as [|c rest IH]; cbn.
  - destruct b as [|c r]; [reflexivity|]. cbn. now rewrite Hb.
  - cbn in Ha. apply andb_true_iff in Ha as [Hc Hr].
    rewrite Hc, (IH Hr). reflexivity.
Qed.

Lemma matchExact_spec (w s r : jsstring) :
  matchExact w s = Some r <-> s = w ++ r.
Proof.
  revert s. induction w as [|a w' IH]; intro s; cbn.
  - split; [intro H; now injection H | intros ->; reflexivity].
  - destruct s as [|c s']; [split; discriminate|].
    destruct (N.eqb_spec a c) as [->|Hne].
    + rewrite IH. split; [intros ->; reflexivity | intro H; now injection H].
    + split; [discriminate | intro H; injection H as -> _; congruence].
Qed.

Lemma digit_not_space (c : N) : isDigit c = true -> isWhiteSpace c = false.
Proof.
  unfold isDigit. intro H. apply andb_true_iff in H as [H1 H2].
  apply N.leb_le in H1, H2.
  assert (Hc : (c = 48 \/ c = 49 \/ c = 50 \/ c = 51 \/ c = 52 \/ c = 53
                \/ c = 54 \/ c = 55 \/ c = 56 \/ c = 57)%N) by lia.
  repeat (destruct Hc as [->|Hc]; [reflexivity|]). now subst c.
Qed.

(** The text the validator accepts: two non-empty runs of digits around
    [" out of "]. *)
Lemma TEXT_RE_shape (text : jsstring) :
  TEXT_RE_test text = true
  <-> exists d1 d2,
        text = d1 ++ js " out of " ++ d2
        /\ d1 <> [] /\ d2 <> []
        /\ forallb isDigit d1 = true /\ forallb isDigit d2 = true.
Proof.
  unfold TEXT_RE_test. split.
  - destruct (span isDigit text) as [d1 r1] eqn:E1.
    destruct (span_spec _ _ _ _ E1) as (-> & Hd1 & _).
    intro H. apply andb_true_iff in H as [Hn1 H].
    destruct (matchExact (js " out of ") r1) as [r2|] eqn:Em; [|discriminate].
    apply matchExact_spec in Em. subst r1.
    destruct (span isDigit r2) as [d2 r3] eqn:E2.
    destruct (span_spec _ _ _ _ E2) as (-> & Hd2 & _).
    apply andb_true_iff in H as [Hn2 H3].
    destruct r3; [|discriminate]. rewrite app_nil_r.
    exists d1, d2. repeat split; try assumption.
    + intros ->. discriminate.
    + intros ->. discriminate.
  - intros (d1 & d2 & -> & Hn1 & Hn2 & Hd1 & Hd2).
    rewrite (span_app isDigit d1 (js " out of " ++ d2) Hd1 eq_refl).
    assert (Em : matchExact (js " out of ") (js " out of " ++ d2) = Some d2)
      by now apply matchExact_spec.
    rewrite Em.
    rewrite <- (app_nil_r d2) at 1. rewrite (span_app isDigit d2 [] Hd2 I).
    destruct d1; [congruence|]. destruct d2; [congruence|]. reflexivity.
Qed.

(** A text of that shape is matched by the parser, with the two runs as its
    groups. *)
Lemma matchRatio_shape (d1 d2 : jsstring) :
  d1 <> [] -> d2 <> [] ->
  forallb isDigit d1 = true -> forallb isDigit d2 = true ->
  matchRatio (d1 ++ js " out of " ++ d2) = Some (d1, d2).
Proof.
  intros Hn1 Hn2 Hd1 Hd2.
  assert (Hsep : js " out of " ++ d2
                 = (32 :: 111 :: 117 :: 116 :: 32 :: 111 :: 102 :: 32 :: d2)%N)
    by reflexivity.
  assert (Hws : forall r : jsstring,
             span isWhiteSpace (32 :: 111 :: r)%N = ([32%N], (111 :: r)%N))
    by reflexivity.
  assert (Hout : forall r : jsstring,
             matchExact (js "out") (111 :: 117 :: 116 :: r)%N = Some r)
    by reflexivity.
  assert (Hof : forall r : jsstring,
             matchExact (js "of") (111 :: 102 :: r)%N = Some r)
    by reflexivity.
  destruct d2 as [|c2 r2]; [congruence|].
  assert (Hc2 : isDigit c2 = true)
    by (cbn in Hd2; now apply andb_true_iff in Hd2 as [? _]).
  assert (Hs : span isWhiteSpace (32%N :: c2 :: r2) = ([32%N], c2 :: r2)).
  { cbn. now rewrite (digit_not_space c2 Hc2). }
  assert (Hd : span isDigit (c2 :: r2) = (c2 :: r2, [])).
  { rewrite <- (app_nil_r (c2 :: r2)) at 1.
    exact (span_app isDigit (c2 :: r2) [] Hd2 I). }
  unfold matchRatio.
  rewrite (span_app isDigit d1 (js " out of " ++ c2 :: r2) Hd1 eq_refl).
  rewrite Hsep, Hws.
  destruct d1 as [|c1 r1]; [congruence|]. cbn [Str.truthy andb].
  rewrite Hout, Hws. cbn [Str.truthy].
  rewrite Hof, Hs, Hd. reflexivity.
Qed.





Lemma isValidValue_text (v : option json) :
  isValidValue v = true ->
  exists text, get v (js "text") = Some (JStr text)
               /\ TEXT_RE_test text = true
               /\ v <> None /\ v <> Some JNull.
Proof.
  unfold isValidValue. intro H. apply andb_true_iff in H as [Ht H].
  destruct (get v (js "text")) as [[| | |text| |]|] eqn:E; try discriminate.
  exists text. repeat split; try assumption.
  - intros ->. discriminate.
  - intros ->. discriminate.
Qed.




(** A valid value never makes [parseRatio] throw. *)
Lemma valid_value_parses (v : option json) :
  isValidValue v = true -> failed (parseRatio v) = false.
Proof.
  intro H. apply isValidValue_text in H as (text & Etext & Hre & Hnone & Hnull).
  apply TEXT_RE_shape in Hre as (d1 & d2 & -> & Hn1 & Hn2 & Hd1 & Hd2).
  pose proof (matchRatio_shape d1 d2 Hn1 Hn2 Hd1 Hd2) as Hm.
  assert (Hp : failed (parseText v) = false).
  { unfold parseText. rewrite Etext, Hm. reflexivity. }
  unfold parseRatio.
  destruct v as [[| | | | |]|]; try congruence;
    destruct (get _ (js "numerator")) as [num|]; try exact Hp;
    destruct (get _ (js "denominator")) as [den|]; try exact Hp;
    destruct (notNull (Some num) && notNull (Some den));
    try exact Hp; reflexivity.
Qed.

(** X17: data that passes [validateData] can be parsed: [parseRatio] does
    not throw on the national record, nor on the value of any entry of
    [states], and every key of [states] has two code units. *)
Theorem validated_data_parses (d : option json) :
  validateData d = true ->
  failed (parseRatio (get (get d (js "national")) (js "US"))) = false
  /\ exists states,
       get d (js "states") = Some states
       /\ forall k v, In (k, v) (entries states) ->
            List.length k = 2%nat /\ failed (parseRatio (Some v)) = false.
Proof.
  unfold validateData.
  destruct (negb (isTruthy d) || negb (isObject d)); [discriminate|].
  cbv zeta.
  destruct (negb (isTruthy (get d (js "national")))
            || negb (isTruthy (get (get d (js "national")) (js "US")))
            || negb (isValidValue (get (get d (js "national")) (js "US"))))
    eqn:En; [discriminate|].
  apply orb_false_iff in En as [_ Hv]. apply negb_false_iff in Hv.
  destruct (negb (isTruthy (get d (js "states")))
            || negb (isObject (get d (js "states")))); [discriminate|].
  destruct (get d (js "states")) as [st|]; [|discriminate].
  intro Hall. split; [now apply valid_value_parses|].
  exists st. split; [reflexivity|]. intros k v Hin.
  rewrite forallb_forall in Hall. specialize (Hall (k, v) Hin).
  cbn [fst snd] in Hall. apply andb_true_iff in Hall as [Hk Hval].
  split; [now apply Nat.eqb_eq | now apply valid_value_parses].
Qed.

Lemma validated_data_parses_witness :
  failed (parseRatio (get (get sampleData (js "national")) (js "US"))) = false
  /\ exists states,
       get sampleData (js "states") = Some states
       /\ forall k v, In (k, v) (entries states) ->
            List.length k = 2%nat /\ failed (parseRatio (Some v)) = false.
Proof. apply (validated_data_parses sampleData). reflexivity. Defined.

End RatioFacts.

(* ================================================================== *)
(** ** proficiencyToFraction: the best fraction that can be displayed *)

Section FractionizerMore.

Import Fractionizer.







End FractionizerMore.

(* ================================================================== *)
(** ** The state data files and the aligner *)

Section MapDataFacts.

Import MapData MapDataSpec.

Variable projection : number -> number -> option (Q * Q).



Lemma projectAll_finite (places : list Place) :
  forallb Aligner.finitePoint (projectAll projection places) = true.
Proof.
  unfold projectAll. induction places as [|s rest IH]; [reflexivity|].
  cbn [flat_map]. rewrite forallb_app, IH, andb_true_r.
  destruct (projectPoint projection (lon s) (lat s)) as [[px py]|];
    reflexivity.
Qed.

Lemma filter_all {A : Type} (f : A -> bool) (l : list A) :
  forallb f l = true -> filter f l = l.
Proof.
  induction l as [|a l IH]; [reflexivity|]. cbn.
  intro H. apply andb_true_iff in H as [Ha Hl].
  now rewrite Ha, IH.
Qed.

Lemma projectAll_app (l1 l2 : list Place) :
  projectAll projection (l1 ++ l2)
  = projectAll projection l1 ++ projectAll projection l2.
Proof. unfold projectAll. apply flat_map_app. Qed.

Lemma projectAll_names (places : list Place) :
  map Aligner.name (projectAll projection places)
  = map name (filter (projects projection) places).
Proof.
  unfold projectAll. induction places as [|s rest IH]; [reflexivity|].
  cbn [flat_map filter]. rewrite map_app, IH.
  unfold projects, projectPoint.
  destruct (projection (lon s) (lat s)) as [[a b]|]; reflexivity.
Qed.

(** X20: the aligner keeps every point of a file written by
    [processState]: its point cloud is the projected cities, districts and
    schools, in this order, one for each place that projects and with its
    name; so the alignment fails for want of points exactly when no place
    of the intermediate file projects, and otherwise places the city in the
    box of the projected points. *)
Theorem processState_feeds_aligner (data : Intermediate)
  (pad : number) (city : Aligner.StatePoint) (bbr : Exn.result BBox) :
  let written := processState projection data in
  Aligner.allPtsOf written = projectAll projection (placesOf data)
  /\ map Aligner.name (Aligner.allPtsOf written)
     = map name (filter (projects projection) (placesOf data))
  /\ Aligner.alignWith pad written city bbr
     = if existsb (projects projection) (placesOf data)
       then Exn.bind bbr (fun bb =>
              Exn.ret (Aligner.place pad bb
                         (Aligner.cloudBox
                            (projectAll projection (placesOf data))) city))
       else Exn.throw Exn.NoPoints.
Proof.
  cbv zeta.
  assert (Hall : Aligner.allPtsOf (processState projection data)
                 = projectAll projection (placesOf data)).
  { unfold Aligner.allPtsOf, processState, placesOf.
    cbn [Aligner.cities Aligner.districts Aligner.schools].
    rewrite <- !projectAll_app. apply filter_all, projectAll_finite. }
  assert (Hnames : map Aligner.name (projectAll projection (placesOf data))
                   = map name (filter (projects projection) (placesOf data)))
    by apply projectAll_names.
  split; [exact Hall|]. split; [now rewrite Hall|].
  unfold Aligner.alignWith. rewrite Hall.
  assert (Hlen : List.length (projectAll projection (placesOf data))
                 = List.length (filter (projects projection) (placesOf data))).
  { rewrite <- (length_map Aligner.name), Hnames. apply length_map. }
  rewrite Hlen. clear Hall Hnames Hlen.
  assert (Hex : (List.length (filter (projects projection) (placesOf data))
                 =? 0)%nat
                = negb (existsb (projects projection) (placesOf data))).
  { induction (placesOf data) as [|s rest IH]; [reflexivity|].
    cbn [filter existsb]. destruct (projects projection s); [reflexivity|].
    exact IH. }
  rewrite Hex.
  destruct (existsb (projects projection) (placesOf data)); reflexivity.
Qed.

End MapDataFacts.

